(** * CRMM: the entity store, the session store and the derived views

    A shallow embedding of the client-side CRM stores (zustand stores
    [useCRMStore] and [useAuthStore]) and of the pure computations the
    pages make over a store snapshot (filters, ratios, the pipeline
    drag-and-drop handler), together with the properties the
    specification states about them.

    Modelling conventions
    - a TypeScript interface is a record, a union of string literals an
      enumeration with its rendering to the literal;
    - an array is a [list]; [Array.prototype.map], [filter], [find] and
      the spread [[...xs, x]] are [map], [filter], [find] and [xs ++ [x]];
    - a [Date] is the number of milliseconds since the epoch, in [Z];
    - a [number] is an exact rational ([Q]); the results of [/] that are
      not finite numbers ([NaN], [Infinity]) are explicit;
    - a string is a [string] of 8-bit characters, [toLowerCase] acts on
      the letters A-Z;
    - [Partial<T>] is a record of optional fields: [None] is an absent
      key, [Some v] a key present with value [v];
    - [crypto.randomUUID()] and [new Date()] read the browser: each call
      consumes the next outcome of a source the browser state carries. *)

From Stdlib Require Import List String Ascii ZArith QArith Bool Arith Lia.
Import ListNotations.
Close Scope Q_scope.
Open Scope string_scope.
Open Scope list_scope.
Open Scope nat_scope.

Set Implicit Arguments.

(* ================================================================== *)
(** * A state monad for the effects of the code *)

Definition State (S A : Type) : Type := S -> A * S.

Definition ret {S A} (a : A) : State S A := fun s => (a, s).

Definition bind {S A B} (c : State S A) (k : A -> State S B) : State S B :=
  fun s => let (a, s') := c s in k a s'.

Declare Scope eff_scope.
Delimit Scope eff_scope with eff.
Notation "x <- c ;; k" := (bind c (fun x => k))
  (at level 61, c at next level, right associativity) : eff_scope.
Notation "c ;; k" := (bind c (fun _ => k))
  (at level 61, right associativity) : eff_scope.
Open Scope eff_scope.

(** [Array.prototype.map] with a callback that has effects: the
    callback runs on the elements from left to right. *)
Fixpoint Array_map {S A B} (f : A -> State S B) (xs : list A)
  : State S (list B) :=
  match xs with
  | [] => ret []
  | x :: rest =>
      y <- f x ;;
      ys <- Array_map f rest ;;
      ret (y :: ys)
  end.

(* ================================================================== *)
(** * The browser: identifier generator and wall clock *)

Definition Date := Z.

Record Browser := mkBrowser {
  uuidSource : nat -> string;   (* outcomes of crypto.randomUUID() *)
  uuidsDrawn : nat;             (* how many were consumed *)
  clock      : nat -> Date;     (* readings of new Date() *)
  clockReads : nat              (* how many were consumed *)
}.

Definition Eff := State Browser.

Definition randomUUID : Eff string :=
  fun b => (uuidSource b (uuidsDrawn b),
            mkBrowser (uuidSource b) (S (uuidsDrawn b)) (clock b) (clockReads b)).

Definition newDate : Eff Date :=
  fun b => (clock b (clockReads b),
            mkBrowser (uuidSource b) (uuidsDrawn b) (clock b) (S (clockReads b))).

(** What the environment is expected to provide. *)
Definition unique_uuids (b : Browser) : Prop :=
  forall i j, uuidSource b i = uuidSource b j -> i = j.

Definition monotone_clock (b : Browser) : Prop :=
  forall i j, i <= j -> (clock b i <= clock b j)%Z.

(** [b'] is a later state of the same browser. *)
Definition later (b b' : Browser) : Prop :=
  uuidSource b' = uuidSource b /\ clock b' = clock b /\
  uuidsDrawn b <= uuidsDrawn b' /\ clockReads b <= clockReads b'.

(** [{...a, ...b}] on one key: the value of [b] when the key is present. *)
Definition spreadKey {A} (present : option A) (previous : A) : A :=
  match present with
  | Some v => v
  | None => previous
  end.

(* ================================================================== *)
(** * Data model (crmStore.ts) *)

Module LeadStatus.
Inductive t := new | qualified | converted | lost.
Definition to_string (s : t) : string :=
  match s with
  | new => "new" | qualified => "qualified"
  | converted => "converted" | lost => "lost"
  end.
End LeadStatus.

Module DealStage.
Inductive t :=
  prospecting | qualification | proposal | negotiation | closed_won | closed_lost.
Definition to_string (s : t) : string :=
  match s with
  | prospecting => "prospecting" | qualification => "qualification"
  | proposal => "proposal" | negotiation => "negotiation"
  | closed_won => "closed-won" | closed_lost => "closed-lost"
  end.
End DealStage.

Module TaskPriority.
Inductive t := low | medium | high.
Definition to_string (p : t) : string :=
  match p with low => "low" | medium => "medium" | high => "high" end.
End TaskPriority.

Module TaskStatus.
Inductive t := pending | in_progress | completed.
Definition to_string (s : t) : string :=
  match s with
  | pending => "pending" | in_progress => "in-progress"
  | completed => "completed"
  end.
End TaskStatus.

Module Contact.
Record t := mk {
  id : string; name : string; email : string; phone : string;
  company : string; position : string; tags : list string;
  createdAt : Date; updatedAt : Date; notes : string }.

(** [Omit<Contact, 'id' | 'createdAt' | 'updatedAt'>] *)
Record input := mkInput {
  i_name : string; i_email : string; i_phone : string;
  i_company : string; i_position : string; i_tags : list string;
  i_notes : string }.

(** [Partial<Contact>] *)
Record partial := mkPartial {
  p_id : option string; p_name : option string; p_email : option string;
  p_phone : option string; p_company : option string;
  p_position : option string; p_tags : option (list string);
  p_createdAt : option Date; p_updatedAt : option Date;
  p_notes : option string }.

(** [{ ...contact, id, createdAt, updatedAt }] *)
Definition create (contact : input) (id : string) (createdAt updatedAt : Date) : t :=
  mk id (i_name contact) (i_email contact) (i_phone contact)
     (i_company contact) (i_position contact) (i_tags contact)
     createdAt updatedAt (i_notes contact).

(** [{ ...contact, ...updates, updatedAt }] *)
Definition spread (contact : t) (updates : partial) (updatedAt : Date) : t :=
  mk (spreadKey (p_id updates) (id contact))
     (spreadKey (p_name updates) (name contact))
     (spreadKey (p_email updates) (email contact))
     (spreadKey (p_phone updates) (phone contact))
     (spreadKey (p_company updates) (company contact))
     (spreadKey (p_position updates) (position contact))
     (spreadKey (p_tags updates) (tags contact))
     (spreadKey (p_createdAt updates) (createdAt contact))
     updatedAt
     (spreadKey (p_notes updates) (notes contact)).
End Contact.

Module Lead.
Record t := mk {
  id : string; name : string; email : string; phone : string;
  company : string; value : Q; status : LeadStatus.t;
  assignedTo : string; source : string;
  createdAt : Date; updatedAt : Date; notes : string }.

Record input := mkInput {
  i_name : string; i_email : string; i_phone : string;
  i_company : string; i_value : Q; i_status : LeadStatus.t;
  i_assignedTo : string; i_source : string; i_notes : string }.

Record partial := mkPartial {
  p_id : option string; p_name : option string; p_email : option string;
  p_phone : option string; p_company : option string; p_value : option Q;
  p_status : option LeadStatus.t; p_assignedTo : option string;
  p_source : option string; p_createdAt : option Date;
  p_updatedAt : option Date; p_notes : option string }.

Definition create (lead : input) (id : string) (createdAt updatedAt : Date) : t :=
  mk id (i_name lead) (i_email lead) (i_phone lead) (i_company lead)
     (i_value lead) (i_status lead) (i_assignedTo lead) (i_source lead)
     createdAt updatedAt (i_notes lead).

Definition spread (lead : t) (updates : partial) (updatedAt : Date) : t :=
  mk (spreadKey (p_id updates) (id lead))
     (spreadKey (p_name updates) (name lead))
     (spreadKey (p_email updates) (email lead))
     (spreadKey (p_phone updates) (phone lead))
     (spreadKey (p_company updates) (company lead))
     (spreadKey (p_value updates) (value lead))
     (spreadKey (p_status updates) (status lead))
     (spreadKey (p_assignedTo updates) (assignedTo lead))
     (spreadKey (p_source updates) (source lead))
     (spreadKey (p_createdAt updates) (createdAt lead))
     updatedAt
     (spreadKey (p_notes updates) (notes lead)).
End Lead.

Module Deal.
Record t := mk {
  id : string; title : string; value : Q; stage : DealStage.t;
  contactId : string; assignedTo : string; closeDate : Date;
  probability : Q; createdAt : Date; updatedAt : Date; notes : string }.

Record input := mkInput {
  i_title : string; i_value : Q; i_stage : DealStage.t;
  i_contactId : string; i_assignedTo : string; i_closeDate : Date;
  i_probability : Q; i_notes : string }.

Record partial := mkPartial {
  p_id : option string; p_title : option string; p_value : option Q;
  p_stage : option DealStage.t; p_contactId : option string;
  p_assignedTo : option string; p_closeDate : option Date;
  p_probability : option Q; p_createdAt : option Date;
  p_updatedAt : option Date; p_notes : option string }.

Definition create (deal : input) (id : string) (createdAt updatedAt : Date) : t :=
  mk id (i_title deal) (i_value deal) (i_stage deal) (i_contactId deal)
     (i_assignedTo deal) (i_closeDate deal) (i_probability deal)
     createdAt updatedAt (i_notes deal).

Definition spread (deal : t) (updates : partial) (updatedAt : Date) : t :=
  mk (spreadKey (p_id updates) (id deal))
     (spreadKey (p_title updates) (title deal))
     (spreadKey (p_value updates) (value deal))
     (spreadKey (p_stage updates) (stage deal))
     (spreadKey (p_contactId updates) (contactId deal))
     (spreadKey (p_assignedTo updates) (assignedTo deal))
     (spreadKey (p_closeDate updates) (closeDate deal))
     (spreadKey (p_probability updates) (probability deal))
     (spreadKey (p_createdAt updates) (createdAt deal))
     updatedAt
     (spreadKey (p_notes updates) (notes deal)).

(** The partial [{ stage }]. *)
Definition onlyStage (stage : DealStage.t) : partial :=
  mkPartial None None None (Some stage) None None None None None None None.
End Deal.

Module Task.
(** [{ type: 'contact' | 'lead' | 'deal'; id: string }] *)
Module Related.
Inductive kind := contact | lead | deal.
Record t := mk { type : kind; id : string }.
End Related.

Record t := mk {
  id : string; title : string; description : string; dueDate : Date;
  priority : TaskPriority.t; status : TaskStatus.t; assignedTo : string;
  relatedTo : option Related.t;   (* relatedTo?: { type, id } *)
  createdAt : Date; updatedAt : Date }.

Record input := mkInput {
  i_title : string; i_description : string; i_dueDate : Date;
  i_priority : TaskPriority.t; i_status : TaskStatus.t;
  i_assignedTo : string; i_relatedTo : option Related.t }.

Record partial := mkPartial {
  p_id : option string; p_title : option string;
  p_description : option string; p_dueDate : option Date;
  p_priority : option TaskPriority.t; p_status : option TaskStatus.t;
  p_assignedTo : option string; p_relatedTo : option Related.t;
  p_createdAt : option Date; p_updatedAt : option Date }.

Definition create (task : input) (id : string) (createdAt updatedAt : Date) : t :=
  mk id (i_title task) (i_description task) (i_dueDate task)
     (i_priority task) (i_status task) (i_assignedTo task)
     (i_relatedTo task) createdAt updatedAt.

Definition spread (task : t) (updates : partial) (updatedAt : Date) : t :=
  mk (spreadKey (p_id updates) (id task))
     (spreadKey (p_title updates) (title task))
     (spreadKey (p_description updates) (description task))
     (spreadKey (p_dueDate updates) (dueDate task))
     (spreadKey (p_priority updates) (priority task))
     (spreadKey (p_status updates) (status task))
     (spreadKey (p_assignedTo updates) (assignedTo task))
     (match p_relatedTo updates with
      | Some r => Some r
      | None => relatedTo task
      end)
     (spreadKey (p_createdAt updates) (createdAt task))
     updatedAt.
End Task.

(* ================================================================== *)
(** * The entity store (crmStore.ts, [useCRMStore]) *)

Record CRMState := mkCRMState {
  contacts : list Contact.t;
  leads    : list Lead.t;
  deals    : list Deal.t;
  tasks    : list Task.t }.

(** The object an updater hands to zustand's [set]: the keys it names. *)
Record CRMPatch := mkCRMPatch {
  set_contacts : option (list Contact.t);
  set_leads    : option (list Lead.t);
  set_deals    : option (list Deal.t);
  set_tasks    : option (list Task.t) }.

Definition patchContacts (l : list Contact.t) : CRMPatch :=
  mkCRMPatch (Some l) None None None.
Definition patchLeads (l : list Lead.t) : CRMPatch :=
  mkCRMPatch None (Some l) None None.
Definition patchDeals (l : list Deal.t) : CRMPatch :=
  mkCRMPatch None None (Some l) None.
Definition patchTasks (l : list Task.t) : CRMPatch :=
  mkCRMPatch None None None (Some l).

(** zustand merges the patch into the state, key by key
    ([Object.assign({}, state, patch)]). *)
Definition assign (state : CRMState) (patch : CRMPatch) : CRMState :=
  mkCRMState (spreadKey (set_contacts patch) (contacts state))
             (spreadKey (set_leads patch) (leads state))
             (spreadKey (set_deals patch) (deals state))
             (spreadKey (set_tasks patch) (tasks state)).

(** A store action runs on the store state and the browser. *)
Definition Store := State (CRMState * Browser).

Definition eff {A} (c : Eff A) : Store A :=
  fun sb => let (a, b') := c (snd sb) in (a, (fst sb, b')).

(** [set((state) => patch)] *)
Definition set (updater : CRMState -> Eff CRMPatch) : Store unit :=
  fun sb => let (patch, b') := updater (fst sb) (snd sb) in
            (tt, (assign (fst sb) patch, b')).

Definition emptyStore : CRMState := mkCRMState [] [] [] [].

(** ** Contacts *)

Definition addContact (contact : Contact.input) : Store unit :=
  newContact <- eff (id <- randomUUID ;;
                     createdAt <- newDate ;;
                     updatedAt <- newDate ;;
                     ret (Contact.create contact id createdAt updatedAt)) ;;
  set (fun state => ret (patchContacts (contacts state ++ [newContact]))).

Definition updateContact (id : string) (updates : Contact.partial) : Store unit :=
  set (fun state =>
    contacts' <- Array_map (fun contact =>
      if String.eqb (Contact.id contact) id
      then now <- newDate ;; ret (Contact.spread contact updates now)
      else ret contact) (contacts state) ;;
    ret (patchContacts contacts')).

Definition deleteContact (id : string) : Store unit :=
  set (fun state => ret (patchContacts
    (filter (fun contact => negb (String.eqb (Contact.id contact) id))
            (contacts state)))).

(** ** Leads *)

Definition addLead (lead : Lead.input) : Store unit :=
  newLead <- eff (id <- randomUUID ;;
                  createdAt <- newDate ;;
                  updatedAt <- newDate ;;
                  ret (Lead.create lead id createdAt updatedAt)) ;;
  set (fun state => ret (patchLeads (leads state ++ [newLead]))).

Definition updateLead (id : string) (updates : Lead.partial) : Store unit :=
  set (fun state =>
    leads' <- Array_map (fun lead =>
      if String.eqb (Lead.id lead) id
      then now <- newDate ;; ret (Lead.spread lead updates now)
      else ret lead) (leads state) ;;
    ret (patchLeads leads')).

Definition deleteLead (id : string) : Store unit :=
  set (fun state => ret (patchLeads
    (filter (fun lead => negb (String.eqb (Lead.id lead) id)) (leads state)))).

(** ** Deals *)

Definition addDeal (deal : Deal.input) : Store unit :=
  newDeal <- eff (id <- randomUUID ;;
                  createdAt <- newDate ;;
                  updatedAt <- newDate ;;
                  ret (Deal.create deal id createdAt updatedAt)) ;;
  set (fun state => ret (patchDeals (deals state ++ [newDeal]))).

Definition updateDeal (id : string) (updates : Deal.partial) : Store unit :=
  set (fun state =>
    deals' <- Array_map (fun deal =>
      if String.eqb (Deal.id deal) id
      then now <- newDate ;; ret (Deal.spread deal updates now)
      else ret deal) (deals state) ;;
    ret (patchDeals deals')).

Definition deleteDeal (id : string) : Store unit :=
  set (fun state => ret (patchDeals
    (filter (fun deal => negb (String.eqb (Deal.id deal) id)) (deals state)))).

(** ** Tasks *)

Definition addTask (task : Task.input) : Store unit :=
  newTask <- eff (id <- randomUUID ;;
                  createdAt <- newDate ;;
                  updatedAt <- newDate ;;
                  ret (Task.create task id createdAt updatedAt)) ;;
  set (fun state => ret (patchTasks (tasks state ++ [newTask]))).

Definition updateTask (id : string) (updates : Task.partial) : Store unit :=
  set (fun state =>
    tasks' <- Array_map (fun task =>
      if String.eqb (Task.id task) id
      then now <- newDate ;; ret (Task.spread task updates now)
      else ret task) (tasks state) ;;
    ret (patchTasks tasks')).

Definition deleteTask (id : string) : Store unit :=
  set (fun state => ret (patchTasks
    (filter (fun task => negb (String.eqb (Task.id task) id)) (tasks state)))).

(** ** Sequences of store calls *)

Inductive Collection := Contacts | Leads | Deals | Tasks.

Inductive Op :=
| AddContact (contact : Contact.input)
| UpdateContact (id : string) (updates : Contact.partial)
| DeleteContact (id : string)
| AddLead (lead : Lead.input)
| UpdateLead (id : string) (updates : Lead.partial)
| DeleteLead (id : string)
| AddDeal (deal : Deal.input)
| UpdateDeal (id : string) (updates : Deal.partial)
| DeleteDeal (id : string)
| AddTask (task : Task.input)
| UpdateTask (id : string) (updates : Task.partial)
| DeleteTask (id : string).

Definition target (op : Op) : Collection :=
  match op with
  | AddContact _ | UpdateContact _ _ | DeleteContact _ => Contacts
  | AddLead _ | UpdateLead _ _ | DeleteLead _ => Leads
  | AddDeal _ | UpdateDeal _ _ | DeleteDeal _ => Deals
  | AddTask _ | UpdateTask _ _ | DeleteTask _ => Tasks
  end.

Definition perform (op : Op) : Store unit :=
  match op with
  | AddContact c => addContact c
  | UpdateContact id u => updateContact id u
  | DeleteContact id => deleteContact id
  | AddLead l => addLead l
  | UpdateLead id u => updateLead id u
  | DeleteLead id => deleteLead id
  | AddDeal d => addDeal d
  | UpdateDeal id u => updateDeal id u
  | DeleteDeal id => deleteDeal id
  | AddTask t => addTask t
  | UpdateTask id u => updateTask id u
  | DeleteTask id => deleteTask id
  end.

Fixpoint performAll (ops : list Op) : Store unit :=
  match ops with
  | [] => ret tt
  | op :: rest => perform op ;; performAll rest
  end.

(** The store and the browser after a run. *)
Definition after {A} (c : Store A) (state : CRMState) (b : Browser) : CRMState * Browser :=
  snd (c (state, b)).

(* ================================================================== *)
(** * The session store (authStore.ts, [useAuthStore]) *)

Module UserRole.
Inductive t := admin | manager | salesperson.
End UserRole.

Module User.
Record t := mk {
  id : string; name : string; email : string; role : UserRole.t;
  avatar : option string }.
End User.

Record AuthState := mkAuthState {
  user : option User.t;
  isAuthenticated : bool }.

Record AuthPatch := mkAuthPatch {
  set_user : option (option User.t);
  set_isAuthenticated : option bool }.

Definition assignAuth (state : AuthState) (patch : AuthPatch) : AuthState :=
  mkAuthState (spreadKey (set_user patch) (user state))
              (spreadKey (set_isAuthenticated patch) (isAuthenticated state)).

(** A session action runs on the session state and on the time, in
    milliseconds, the caller has spent awaiting timers. *)
Definition Auth := State (AuthState * Z).

Definition setAuth (patch : AuthPatch) : Auth unit :=
  fun st => (tt, (assignAuth (fst st) patch, snd st)).

(** [await new Promise(resolve => setTimeout(resolve, ms))] *)
Definition awaitTimeout (ms : Z) : Auth unit :=
  fun st => (tt, (fst st, (snd st + ms)%Z)).

Definition login (email password : string) : Auth bool :=
  awaitTimeout 1000 ;;
  let mockUser :=
    User.mk "1"
      (if String.eqb email "admin@crm.com" then "Admin User" else "John Doe")
      email
      (if String.eqb email "admin@crm.com" then UserRole.admin
       else if String.eqb email "manager@crm.com" then UserRole.manager
       else UserRole.salesperson)
      None in
  setAuth (mkAuthPatch (Some (Some mockUser)) (Some true)) ;;
  ret true.

Definition logout : Auth unit :=
  setAuth (mkAuthPatch (Some None) (Some false)).

(* ================================================================== *)
(** * Derived views *)

(** ** JavaScript numbers: finite values and the results of [/] and [*]
    that are not (signed zeros are not told apart) *)

Module JsNumber.
Inductive t := Num (q : Q) | NaN | PosInfinity | NegInfinity.

Definition ofCount (n : nat) : t := Num (inject_Z (Z.of_nat n)).

Definition infinity (positive : bool) : t :=
  if positive then PosInfinity else NegInfinity.

Definition isNeg (q : Q) : bool := (Qnum q <? 0)%Z.

Definition div (a b : t) : t :=
  match a, b with
  | NaN, _ | _, NaN => NaN
  | Num x, Num y =>
      if Qeq_bool y 0
      then if Qeq_bool x 0 then NaN else infinity (negb (isNeg x))
      else Num (x / y)
  | Num _, _ => Num 0
  | PosInfinity, Num y => infinity (negb (isNeg y))
  | NegInfinity, Num y => infinity (isNeg y)
  | _, _ => NaN
  end.

Definition mul (a b : t) : t :=
  match a, b with
  | NaN, _ | _, NaN => NaN
  | Num x, Num y => Num (x * y)
  | Num x, PosInfinity | PosInfinity, Num x =>
      if Qeq_bool x 0 then NaN else infinity (negb (isNeg x))
  | Num x, NegInfinity | NegInfinity, Num x =>
      if Qeq_bool x 0 then NaN else infinity (isNeg x)
  | PosInfinity, PosInfinity | NegInfinity, NegInfinity => PosInfinity
  | _, _ => NegInfinity
  end.

End JsNumber.

(** ** Ratios (Dashboard.tsx, Analytics.tsx) *)

Module Dashboard.
Definition totalLeads (leads : list Lead.t) : nat := List.length leads.

Definition convertedLeads (leads : list Lead.t) : nat :=
  List.length (filter (fun lead =>
    String.eqb (LeadStatus.to_string (Lead.status lead)) "converted") leads).

Definition conversionRate (leads : list Lead.t) : JsNumber.t :=
  if 0 <? totalLeads leads
  then JsNumber.mul
         (JsNumber.div (JsNumber.ofCount (convertedLeads leads))
                       (JsNumber.ofCount (totalLeads leads)))
         (JsNumber.Num 100)
  else JsNumber.Num 0.
End Dashboard.

Module Analytics.

Definition conversionRate (leads : list Lead.t) : JsNumber.t :=
  if 0 <? List.length leads
  then JsNumber.mul
         (JsNumber.div
            (JsNumber.ofCount (List.length (filter (fun lead =>
               String.eqb (LeadStatus.to_string (Lead.status lead)) "converted")
               leads)))
            (JsNumber.ofCount (List.length leads)))
         (JsNumber.Num 100)
  else JsNumber.Num 0.

End Analytics.

(** ** Strings: [toLowerCase] and [includes] *)

Definition lowerChar (c : ascii) : ascii :=
  let n := nat_of_ascii c in
  if (65 <=? n) && (n <=? 90) then ascii_of_nat (n + 32) else c.

Fixpoint toLowerCase (s : string) : string :=
  match s with
  | EmptyString => EmptyString
  | String c rest => String (lowerChar c) (toLowerCase rest)
  end.

(** [s.includes(search)]: [search] occurs in [s] at some position. *)
Fixpoint includes (s search : string) : bool :=
  String.prefix search s ||
  match s with
  | EmptyString => false
  | String _ rest => includes rest search
  end.

(** ** Filtered lists (Contacts.tsx, Leads.tsx, Tasks.tsx, Pipeline.tsx) *)

Definition filteredContacts (contacts : list Contact.t) (searchTerm : string)
  : list Contact.t :=
  filter (fun contact =>
    includes (toLowerCase (Contact.name contact)) (toLowerCase searchTerm) ||
    includes (toLowerCase (Contact.email contact)) (toLowerCase searchTerm) ||
    includes (toLowerCase (Contact.company contact)) (toLowerCase searchTerm))
    contacts.

Definition filteredLeads (leads : list Lead.t) (searchTerm statusFilter : string)
  : list Lead.t :=
  filter (fun lead =>
    let matchesSearch :=
      includes (toLowerCase (Lead.name lead)) (toLowerCase searchTerm) ||
      includes (toLowerCase (Lead.email lead)) (toLowerCase searchTerm) ||
      includes (toLowerCase (Lead.company lead)) (toLowerCase searchTerm) in
    let matchesStatus :=
      String.eqb statusFilter "all" ||
      String.eqb (LeadStatus.to_string (Lead.status lead)) statusFilter in
    matchesSearch && matchesStatus) leads.

Definition filteredTasks (tasks : list Task.t)
    (searchTerm statusFilter priorityFilter : string) : list Task.t :=
  filter (fun task =>
    let matchesSearch :=
      includes (toLowerCase (Task.title task)) (toLowerCase searchTerm) ||
      includes (toLowerCase (Task.description task)) (toLowerCase searchTerm) in
    let matchesStatus :=
      String.eqb statusFilter "all" ||
      String.eqb (TaskStatus.to_string (Task.status task)) statusFilter in
    let matchesPriority :=
      String.eqb priorityFilter "all" ||
      String.eqb (TaskPriority.to_string (Task.priority task)) priorityFilter in
    matchesSearch && matchesStatus && matchesPriority) tasks.

Definition getDealsByStage (deals : list Deal.t) (stage : string) : list Deal.t :=
  filter (fun deal => String.eqb (DealStage.to_string (Deal.stage deal)) stage) deals.

(** ** The pipeline board (Pipeline.tsx) *)

Module StageColumn.
Record t := mk { id : DealStage.t; title : string; color : string }.
End StageColumn.

Definition pipelineStages : list StageColumn.t :=
  [ StageColumn.mk DealStage.prospecting "Prospecting" "bg-blue-500";
    StageColumn.mk DealStage.qualification "Qualification" "bg-yellow-500";
    StageColumn.mk DealStage.proposal "Proposal" "bg-orange-500";
    StageColumn.mk DealStage.negotiation "Negotiation" "bg-purple-500";
    StageColumn.mk DealStage.closed_won "Closed Won" "bg-green-500";
    StageColumn.mk DealStage.closed_lost "Closed Lost" "bg-red-500" ].

(** The identifiers of the dragged card ([active.id]) and of what it was
    dropped on ([over?.id]). *)
Record DragEndEvent := mkDragEndEvent {
  active : string;
  over   : option string }.

(** The handler of the board, closed over the [deals] of the render.
    The variable [newStage], a string that is empty or a stage literal,
    is an optional stage here.  The overlay state and the toast of the
    handler are not part of the store and are left out. *)
Definition handleDragEnd (deals : list Deal.t) (event : DragEndEvent) : Store unit :=
  match over event with
  | None => ret tt
  | Some overId =>
      let newStage :=
        match find (fun stage =>
                String.eqb (DealStage.to_string (StageColumn.id stage)) overId)
                pipelineStages with
        | Some stageColumn => Some (StageColumn.id stageColumn)
        | None =>
            match find (fun d => String.eqb (Deal.id d) overId) deals with
            | Some overDeal => Some (Deal.stage overDeal)
            | None => None
            end
        end in
      match newStage with
      | Some stage =>
          if negb (String.eqb (active event) overId)
          then match find (fun d => String.eqb (Deal.id d) (active event)) deals with
               | Some deal =>
                   if negb (String.eqb (DealStage.to_string (Deal.stage deal))
                                       (DealStage.to_string stage))
                   then updateDeal (Deal.id deal) (Deal.onlyStage stage)
                   else ret tt
               | None => ret tt
               end
          else ret tt
      | None => ret tt
      end
  end.

(* ================================================================== *)
(** * Lists under the three shapes of mutation *)

Section Mutations.
Variable R : Type.
Variable rid : R -> string.
Variable upd : R -> Date -> R.

(** The callback of the [map] in every update action. *)
Definition stamp (id : string) (r : R) : Eff R :=
  if String.eqb (rid r) id
  then now <- newDate ;; ret (upd r now)
  else ret r.

(** How an element relates to the one that replaces it. *)
Definition replaced (id : string) (b b' : Browser) (r r' : R) : Prop :=
  if String.eqb (rid r) id
  then exists k, clockReads b <= k /\ k < clockReads b' /\ r' = upd r (clock b k)
  else r' = r.

Lemma replaced_earlier id b0 b b' r r' :
  clock b = clock b0 -> clockReads b0 <= clockReads b ->
  replaced id b b' r r' -> replaced id b0 b' r r'.
Proof.
  unfold replaced. intros Hc Hn. destruct (String.eqb (rid r) id); auto.
  intros (k & H1 & H2 & H3). exists k. rewrite <- Hc. repeat split; auto; lia.
Qed.

Lemma replaced_until id b b1 b' r r' :
  clockReads b1 <= clockReads b' ->
  replaced id b b1 r r' -> replaced id b b' r r'.
Proof.
  unfold replaced. intros Hn. destruct (String.eqb (rid r) id); auto.
  intros (k & H1 & H2 & H3). exists k. repeat split; auto; lia.
Qed.

Lemma stamp_all id (l : list R) : forall b,
  let (l', b') := Array_map (stamp id) l b in
  Forall2 (replaced id b b') l l' /\ later b b' /\
  uuidsDrawn b' = uuidsDrawn b.
Proof.
  induction l as [|r l IH]; intros b; simpl.
  - unfold ret, later. repeat split; auto.
  - unfold bind at 1. unfold stamp at 1.
    destruct (String.eqb (rid r) id) eqn:E.
    + unfold bind at 1, newDate at 1, ret at 1.
      set (b1 := mkBrowser _ _ _ _).
      specialize (IH b1). unfold bind.
      destruct (Array_map (stamp id) l b1) as [l' b'].
      destruct IH as (HF & (Hu & Hc & Hd & Hn) & Hdr). unfold ret.
      subst b1; simpl in *.
      repeat split; auto; try lia.
      constructor.
      * unfold replaced. rewrite E. exists (clockReads b).
        repeat split; auto; lia.
      * eapply Forall2_impl; [|exact HF]. intros x y Hxy.
        eapply replaced_earlier; [| |exact Hxy]; simpl; auto.
    + unfold ret at 1. specialize (IH b). unfold bind.
      destruct (Array_map (stamp id) l b) as [l' b'].
      destruct IH as (HF & HL & Hdr). unfold ret.
      repeat split; auto; try apply HL.
      constructor; auto. unfold replaced. rewrite E. reflexivity.
Qed.

(** No element carries the identifier: nothing is read, nothing changes. *)
Lemma stamp_absent id (l : list R) b :
  (forall r, In r l -> rid r <> id) ->
  Array_map (stamp id) l b = (l, b).
Proof.
  induction l as [|r l IH]; intros H; simpl; [reflexivity|].
  unfold bind at 1, stamp at 1.
  destruct (String.eqb_spec (rid r) id) as [E|E].
  - exfalso. apply (H r); simpl; auto.
  - unfold ret at 1. unfold bind. rewrite IH; [reflexivity|].
    intros x Hx. apply H. simpl; auto.
Qed.

Lemma remove_absent id (l : list R) :
  (forall r, In r l -> rid r <> id) ->
  filter (fun r => negb (String.eqb (rid r) id)) l = l.
Proof.
  induction l as [|r l IH]; intros H; simpl; [reflexivity|].
  destruct (String.eqb_spec (rid r) id) as [E|E]; simpl.
  - exfalso. apply (H r); simpl; auto.
  - f_equal. apply IH. intros x Hx. apply H. simpl; auto.
Qed.
End Mutations.

(* ================================================================== *)
(** * What the four record types share *)

Class Entity (R P : Type) := {
  eid        : R -> string;
  ecreatedAt : R -> Date;
  eupdatedAt : R -> Date;
  espread    : R -> P -> Date -> R;
  pid        : P -> option string;
  pcreatedAt : P -> option Date;
  espread_id : forall r p t, eid (espread r p t) = spreadKey (pid p) (eid r);
  espread_createdAt : forall r p t,
    ecreatedAt (espread r p t) = spreadKey (pcreatedAt p) (ecreatedAt r);
  espread_updatedAt : forall r p t, eupdatedAt (espread r p t) = t }.

#[export] Instance ContactEntity : Entity Contact.t Contact.partial :=
  {| eid := Contact.id; ecreatedAt := Contact.createdAt;
     eupdatedAt := Contact.updatedAt; espread := Contact.spread;
     pid := Contact.p_id; pcreatedAt := Contact.p_createdAt;
     espread_id := fun _ _ _ => eq_refl;
     espread_createdAt := fun _ _ _ => eq_refl;
     espread_updatedAt := fun _ _ _ => eq_refl |}.

#[export] Instance LeadEntity : Entity Lead.t Lead.partial :=
  {| eid := Lead.id; ecreatedAt := Lead.createdAt;
     eupdatedAt := Lead.updatedAt; espread := Lead.spread;
     pid := Lead.p_id; pcreatedAt := Lead.p_createdAt;
     espread_id := fun _ _ _ => eq_refl;
     espread_createdAt := fun _ _ _ => eq_refl;
     espread_updatedAt := fun _ _ _ => eq_refl |}.

#[export] Instance DealEntity : Entity Deal.t Deal.partial :=
  {| eid := Deal.id; ecreatedAt := Deal.createdAt;
     eupdatedAt := Deal.updatedAt; espread := Deal.spread;
     pid := Deal.p_id; pcreatedAt := Deal.p_createdAt;
     espread_id := fun _ _ _ => eq_refl;
     espread_createdAt := fun _ _ _ => eq_refl;
     espread_updatedAt := fun _ _ _ => eq_refl |}.

#[export] Instance TaskEntity : Entity Task.t Task.partial :=
  {| eid := Task.id; ecreatedAt := Task.createdAt;
     eupdatedAt := Task.updatedAt; espread := Task.spread;
     pid := Task.p_id; pcreatedAt := Task.p_createdAt;
     espread_id := fun _ _ _ => eq_refl;
     espread_createdAt := fun _ _ _ => eq_refl;
     espread_updatedAt := fun _ _ _ => eq_refl |}.

Section Soundness.
Context {R P : Type} `{E : Entity R P}.

(** Every identifier of the collection came out of the generator. *)
Definition drawn (b : Browser) (l : list R) : Prop :=
  forall r, In r l -> exists i, i < uuidsDrawn b /\ eid r = uuidSource b i.

(** A record as the store leaves it: its identifier was drawn, it was
    not updated before it was created, it was created no later than
    any reading still to come, and its last update carries a reading
    already taken. *)
Definition stampedEarlier (b : Browser) (r : R) : Prop :=
  exists j, j < clockReads b /\ eupdatedAt r = clock b j.

Definition settled (b : Browser) (r : R) : Prop :=
  (exists i, i < uuidsDrawn b /\ eid r = uuidSource b i) /\
  (ecreatedAt r <= eupdatedAt r)%Z /\
  (forall k, clockReads b <= k -> (ecreatedAt r <= clock b k)%Z) /\
  stampedEarlier b r.

Definition sound (b : Browser) (l : list R) : Prop :=
  NoDup (map eid l) /\ Forall (settled b) l.

Lemma sound_drawn b l : sound b l -> drawn b l.
Proof.
  intros [_ HF] r Hr. rewrite Forall_forall in HF.
  destruct (HF r Hr) as (H & _). exact H.
Qed.

Lemma sound_stamped b l r : sound b l -> In r l -> stampedEarlier b r.
Proof.
  intros [_ HF] Hr. rewrite Forall_forall in HF.
  destruct (HF r Hr) as (_ & _ & _ & H). exact H.
Qed.

Lemma settled_later b b' r : later b b' -> settled b r -> settled b' r.
Proof.
  intros (Hu & Hc & Hd & Hn) ((i & Hi & Hid) & Hle & Hfut & (j & Hj & Hup)).
  split; [|split; [|split]]; auto.
  - exists i. rewrite Hu. split; auto; lia.
  - intros k Hk. rewrite Hc. apply Hfut. lia.
  - exists j. rewrite Hc. split; auto; lia.
Qed.

Lemma sound_later b b' l : later b b' -> sound b l -> sound b' l.
Proof.
  intros HL [HN HF]. split; auto.
  eapply Forall_impl; [|exact HF]. intros r. apply settled_later; auto.
Qed.

(** A fresh draw is not in a collection of drawn identifiers. *)
Lemma fresh_draw b l :
  unique_uuids b -> drawn b l ->
  ~ In (uuidSource b (uuidsDrawn b)) (map eid l).
Proof.
  intros HU HD Hin. apply in_map_iff in Hin. destruct Hin as (r & Hid & Hr).
  destruct (HD r Hr) as (i & Hi & Hri). rewrite Hri in Hid.
  apply HU in Hid. lia.
Qed.

Lemma sound_add b b' l r :
  unique_uuids b -> monotone_clock b -> sound b l ->
  eid r = uuidSource b (uuidsDrawn b) ->
  ecreatedAt r = clock b (clockReads b) ->
  eupdatedAt r = clock b (S (clockReads b)) ->
  uuidSource b' = uuidSource b -> clock b' = clock b ->
  uuidsDrawn b' = S (uuidsDrawn b) -> clockReads b' = S (S (clockReads b)) ->
  sound b' (l ++ [r]).
Proof.
  intros HU HM HS Hid Hc Hup Hsrc Hclk Hd Hn.
  assert (HL : later b b') by (unfold later; repeat split; auto; lia).
  split.
  - rewrite map_app. simpl. apply NoDup_app; [apply HS | | ].
    + constructor; [simpl; tauto | constructor].
    + intros x Hx [Hy|[]]. subst x. rewrite Hid in Hx.
      exact (fresh_draw HU (sound_drawn HS) Hx).
  - apply Forall_app. split.
    + destruct (sound_later HL HS) as [_ HF]. exact HF.
    + constructor; [|constructor]. split; [|split; [|split]].
      * exists (uuidsDrawn b). rewrite Hd, Hsrc. split; auto.
      * rewrite Hc, Hup. apply HM. lia.
      * intros k Hk. rewrite Hc, Hclk. apply HM. lia.
      * exists (S (clockReads b)). rewrite Hup, Hclk. split; auto; lia.
Qed.

Lemma NoDup_map_filter (f : R -> bool) l :
  NoDup (map eid l) -> NoDup (map eid (filter f l)).
Proof.
  induction l as [|r l IH]; simpl; intros H; [constructor|].
  inversion H as [|x xs Hnin Hnd]; subst.
  destruct (f r); simpl; auto.
  constructor; auto. intros Hin. apply Hnin.
  apply in_map_iff in Hin. destruct Hin as (y & Hy & Hyin).
  apply filter_In in Hyin. apply in_map_iff. exists y. tauto.
Qed.

Lemma sound_delete b (f : R -> bool) l : sound b l -> sound b (filter f l).
Proof.
  intros [HN HF]. split; [apply NoDup_map_filter; auto|].
  rewrite Forall_forall in *. intros r Hr. apply filter_In in Hr.
  apply HF. tauto.
Qed.

(** An update that names neither [id] nor [createdAt]. *)
Lemma replaced_ids id (p : P) b b' l l' :
  pid p = None ->
  Forall2 (replaced eid (fun r now => espread r p now) id b b') l l' ->
  map eid l' = map eid l.
Proof.
  intros Hp HF. induction HF as [|r r' l l' Hr HF IH]; simpl; [reflexivity|].
  f_equal; auto. unfold replaced in Hr.
  destruct (String.eqb (eid r) id).
  - destruct Hr as (k & _ & _ & ->). rewrite espread_id, Hp. reflexivity.
  - subst; reflexivity.
Qed.

Lemma sound_update id (p : P) b b' l l' :
  later b b' -> sound b l ->
  pid p = None -> pcreatedAt p = None ->
  Forall2 (replaced eid (fun r now => espread r p now) id b b') l l' ->
  sound b' l'.
Proof.
  intros HL [HN HS] Hp Hc HF. split.
  - rewrite (replaced_ids _ Hp HF). exact HN.
  - clear HN. induction HF as [|r r' l l' Hr HF IH]; [constructor|].
    inversion HS as [|x xs Hx Hxs]; subst. constructor; auto.
    unfold replaced in Hr. destruct (String.eqb (eid r) id).
    + destruct Hr as (k & Hk1 & Hk2 & ->).
      destruct (settled_later HL Hx) as (Hi & Hle & Hfut & _).
      destruct Hx as (_ & _ & Hfut0 & _).
      split; [|split; [|split]].
      * rewrite espread_id, Hp. exact Hi.
      * rewrite espread_createdAt, espread_updatedAt, Hc. simpl.
        apply Hfut0. exact Hk1.
      * intros j Hj. rewrite espread_createdAt, Hc. simpl. apply Hfut. exact Hj.
      * exists k. unfold stampedEarlier. rewrite espread_updatedAt.
        destruct HL as (_ & Hclk & _). rewrite Hclk. split; auto.
    + subst r'. apply (settled_later HL Hx).
Qed.
End Soundness.

(* ================================================================== *)
(** * The store as a whole *)

Definition storeSound (b : Browser) (s : CRMState) : Prop :=
  sound b (contacts s) /\ sound b (leads s) /\
  sound b (deals s) /\ sound b (tasks s).

(** The update names neither [id] nor [createdAt]. *)
Definition keepsIdentity (op : Op) : Prop :=
  match op with
  | UpdateContact _ u => Contact.p_id u = None /\ Contact.p_createdAt u = None
  | UpdateLead _ u => Lead.p_id u = None /\ Lead.p_createdAt u = None
  | UpdateDeal _ u => Deal.p_id u = None /\ Deal.p_createdAt u = None
  | UpdateTask _ u => Task.p_id u = None /\ Task.p_createdAt u = None
  | _ => True
  end.

(** From one state of a collection to the next, identifiers stay where
    they are: position by position they are the same, or one record was
    appended, or the records with one identifier were taken out. *)
Definition persists {R P} `{Entity R P} (old new : list R) : Prop :=
  map eid new = map eid old \/
  (exists r, new = old ++ [r]) \/
  (exists id, new = filter (fun r => negb (String.eqb (eid r) id)) old).

Definition storePersists (s s' : CRMState) : Prop :=
  persists (contacts s) (contacts s') /\ persists (leads s) (leads s') /\
  persists (deals s) (deals s') /\ persists (tasks s) (tasks s').

Definition distinctIds (s : CRMState) : Prop :=
  NoDup (map Contact.id (contacts s)) /\ NoDup (map Lead.id (leads s)) /\
  NoDup (map Deal.id (deals s)) /\ NoDup (map Task.id (tasks s)).

Definition timestampsOrdered (s : CRMState) : Prop :=
  (forall r, In r (contacts s) -> (Contact.createdAt r <= Contact.updatedAt r)%Z) /\
  (forall r, In r (leads s) -> (Lead.createdAt r <= Lead.updatedAt r)%Z) /\
  (forall r, In r (deals s) -> (Deal.createdAt r <= Deal.updatedAt r)%Z) /\
  (forall r, In r (tasks s) -> (Task.createdAt r <= Task.updatedAt r)%Z).

Lemma later_refl b : later b b.
Proof. unfold later. repeat split; auto. Qed.

Lemma later_trans b1 b2 b3 : later b1 b2 -> later b2 b3 -> later b1 b3.
Proof.
  unfold later. intros (A1 & A2 & A3 & A4) (B1 & B2 & B3 & B4).
  repeat split; try congruence; lia.
Qed.

Lemma unique_later b b' : later b b' -> unique_uuids b -> unique_uuids b'.
Proof. intros (Hu & _) H i j. rewrite Hu. apply H. Qed.

Lemma monotone_later b b' : later b b' -> monotone_clock b -> monotone_clock b'.
Proof. intros (_ & Hc & _) H i j. rewrite Hc. apply H. Qed.

Lemma persists_same {R P} `{Entity R P} (l : list R) : persists l l.
Proof. left. reflexivity. Qed.

Lemma storeSound_empty b : storeSound b emptyStore.
Proof.
  unfold storeSound, sound; simpl. repeat split; constructor.
Qed.

(** The update actions, with the callback of their [map] named. *)
Ltac run_update :=
  unfold updateContact, updateLead, updateDeal, updateTask, set, bind, stamp;
  cbn [fst snd]; cbv beta;
  destruct (Array_map _ _ _); reflexivity.

Lemma updateContact_run id updates s b :
  updateContact id updates (s, b) =
  let (contacts', b') :=
    Array_map (stamp Contact.id (fun c now => Contact.spread c updates now) id)
              (contacts s) b in
  (tt, (assign s (patchContacts contacts'), b')).
Proof. run_update. Qed.

Lemma updateLead_run id updates s b :
  updateLead id updates (s, b) =
  let (leads', b') :=
    Array_map (stamp Lead.id (fun l now => Lead.spread l updates now) id)
              (leads s) b in
  (tt, (assign s (patchLeads leads'), b')).
Proof. run_update. Qed.

Lemma updateDeal_run id updates s b :
  updateDeal id updates (s, b) =
  let (deals', b') :=
    Array_map (stamp Deal.id (fun d now => Deal.spread d updates now) id)
              (deals s) b in
  (tt, (assign s (patchDeals deals'), b')).
Proof. run_update. Qed.

Lemma updateTask_run id updates s b :
  updateTask id updates (s, b) =
  let (tasks', b') :=
    Array_map (stamp Task.id (fun t now => Task.spread t updates now) id)
              (tasks s) b in
  (tt, (assign s (patchTasks tasks'), b')).
Proof. run_update. Qed.

Ltac store_goals :=
  unfold storeSound, storePersists, assign, patchContacts, patchLeads,
         patchDeals, patchTasks; simpl;
  refine (conj (conj _ (conj _ (conj _ _)))
               (conj _ (conj _ (conj _ (conj _ _))))).

Ltac add_case b :=
  unfold after, addContact, addLead, addDeal, addTask,
         bind, eff, set, randomUUID, newDate, ret; simpl;
  set (b' := mkBrowser _ _ _ _);
  assert (HL : later b b') by (unfold later; simpl; repeat split; auto; lia);
  store_goals;
  first [ exact HL
        | apply persists_same
        | apply (sound_later HL); assumption
        | apply (@sound_add _ _ _ b b'); auto
        | right; left; eexists; reflexivity ].

Ltac update_case HK b l :=
  unfold after;
  first [ rewrite updateContact_run | rewrite updateLead_run
        | rewrite updateDeal_run | rewrite updateTask_run ];
  match goal with
  | |- context [Array_map (stamp ?f ?g ?i) l b] =>
      let HS := fresh "HS" in
      pose proof (stamp_all f g i l b) as HS;
      destruct (Array_map (stamp f g i) l b) as [l' b'];
      destruct HS as (HF & HL & _); destruct HK as [HK1 HK2];
      simpl; store_goals;
      first [ exact HL
            | apply persists_same
            | apply (sound_later HL); assumption
            | eapply sound_update; eauto
            | left; eapply replaced_ids; eauto ]
  end.

Ltac delete_case :=
  unfold after, deleteContact, deleteLead, deleteDeal, deleteTask, set, ret;
  simpl; store_goals;
  first [ apply later_refl
        | apply persists_same
        | assumption
        | apply sound_delete; assumption
        | right; right; eexists; reflexivity ].

Lemma perform_sound op s b :
  unique_uuids b -> monotone_clock b -> keepsIdentity op -> storeSound b s ->
  storeSound (snd (after (perform op) s b)) (fst (after (perform op) s b)) /\
  later b (snd (after (perform op) s b)) /\
  storePersists s (fst (after (perform op) s b)).
Proof.
  intros HU HM HK (Hc & Hl & Hd & Ht).
  destruct op; simpl perform.
  - add_case b.
  - update_case HK b (contacts s).
  - delete_case.
  - add_case b.
  - update_case HK b (leads s).
  - delete_case.
  - add_case b.
  - update_case HK b (deals s).
  - delete_case.
  - add_case b.
  - update_case HK b (tasks s).
  - delete_case.
Qed.

Lemma performAll_cons op ops s b :
  after (performAll (op :: ops)) s b =
  after (performAll ops) (fst (after (perform op) s b)) (snd (after (perform op) s b)).
Proof.
  unfold after. simpl. unfold bind.
  destruct (perform op (s, b)) as [u [s1 b1]]. reflexivity.
Qed.

Lemma performAll_sound ops : forall s b,
  unique_uuids b -> monotone_clock b -> Forall keepsIdentity ops ->
  storeSound b s ->
  storeSound (snd (after (performAll ops) s b)) (fst (after (performAll ops) s b)) /\
  later b (snd (after (performAll ops) s b)).
Proof.
  induction ops as [|op ops IH]; intros s b HU HM HK HS.
  - split; [exact HS | apply later_refl].
  - rewrite performAll_cons. inversion HK as [|x xs Hop Hops]; subst.
    destruct (@perform_sound op s b HU HM Hop HS) as (HS1 & HL1 & _).
    destruct (IH _ _ (unique_later HL1 HU) (monotone_later HL1 HM) Hops HS1)
      as (HS2 & HL2).
    split; [exact HS2 | exact (later_trans HL1 HL2)].
Qed.

Lemma storeSound_distinct b s : storeSound b s -> distinctIds s.
Proof.
  intros (Hc & Hl & Hd & Ht). unfold distinctIds.
  repeat split; [apply Hc | apply Hl | apply Hd | apply Ht].
Qed.

Lemma sound_ordered {R P} `{Entity R P} b (l : list R) :
  sound b l -> forall r, In r l -> (ecreatedAt r <= eupdatedAt r)%Z.
Proof.
  intros [_ HF] r Hr. rewrite Forall_forall in HF. apply (HF r Hr).
Qed.

Lemma storeSound_ordered b s : storeSound b s -> timestampsOrdered s.
Proof.
  intros (Hc & Hl & Hd & Ht). unfold timestampsOrdered.
  refine (conj _ (conj _ (conj _ _))).
  - exact (sound_ordered Hc).
  - exact (sound_ordered Hl).
  - exact (sound_ordered Hd).
  - exact (sound_ordered Ht).
Qed.

(** ** A browser to run examples on *)

Fixpoint tally (n : nat) : string :=
  match n with
  | 0 => "#"
  | S k => String "u" (tally k)
  end.

(** Identifiers [#], [u#], [uu#], ... and a clock that starts at 1000
    and advances by one millisecond at every reading. *)
Definition tickingBrowser : Browser :=
  mkBrowser tally 0 (fun n => (1000 + Z.of_nat n)%Z) 0.

(** The same identifiers under a clock that stands still. *)
Definition frozenBrowser : Browser :=
  mkBrowser tally 0 (fun _ => 1000%Z) 0.

Lemma tally_length n : String.length (tally n) = S n.
Proof. induction n; simpl; congruence. Qed.

Lemma tally_unique (clk : nat -> Date) (d n : nat) :
  unique_uuids (mkBrowser tally d clk n).
Proof.
  intros i j H. simpl in H. apply (f_equal String.length) in H.
  rewrite !tally_length in H. congruence.
Qed.

Lemma ticking_monotone (d n : nat) :
  monotone_clock (mkBrowser tally d (fun n => (1000 + Z.of_nat n)%Z) n).
Proof. intros i j H. cbn [clock]. lia. Qed.

Definition sampleContact : Contact.input :=
  Contact.mkInput "Ada" "ada@example.com" "555-0100" "Analytical" "Engineer" [] "".

Definition sampleDeal (stage : DealStage.t) (value : Q) : Deal.input :=
  Deal.mkInput "Licence" value stage "c1" "Ada" 2000%Z 50%Q "".

(* ================================================================== *)
(** * Properties of the entity store *)

(** What an add action leaves behind: [r] was appended to [old], under
    the identifier just drawn and with the two readings just taken. *)
Definition appended {R P} `{Entity R P} (b : Browser) (old new : list R) (r : R)
  : Prop :=
  new = old ++ [r] /\
  eid r = uuidSource b (uuidsDrawn b) /\
  ecreatedAt r = clock b (clockReads b) /\
  eupdatedAt r = clock b (S (clockReads b)) /\
  (unique_uuids b -> drawn b old -> ~ In (eid r) (map eid old)) /\
  (monotone_clock b -> (ecreatedAt r <= eupdatedAt r)%Z) /\
  (clock b (clockReads b) = clock b (S (clockReads b)) ->
   ecreatedAt r = eupdatedAt r).

Lemma appended_intro {R P} `{Entity R P} b (old : list R) r :
  eid r = uuidSource b (uuidsDrawn b) ->
  ecreatedAt r = clock b (clockReads b) ->
  eupdatedAt r = clock b (S (clockReads b)) ->
  appended b old (old ++ [r]) r.
Proof.
  intros Hid Hc Hup. unfold appended.
  refine (conj eq_refl (conj Hid (conj Hc (conj Hup (conj _ (conj _ _)))))).
  - intros HU HD. rewrite Hid. apply fresh_draw; auto.
  - intros HM. rewrite Hc, Hup. apply HM. lia.
  - intros Heq. rewrite Hc, Hup. exact Heq.
Qed.

(** C1 (amended).  An add action on any of the four collections always
    completes and returns nothing ([void]); it appends exactly one record
    to the end of its collection, made of the given fields, the
    identifier just drawn and the two clock readings just taken.  When
    the generator does not repeat itself and the identifiers of the
    collection came out of it, the new identifier differs from all of
    them; when the clock does not run backwards [createdAt <= updatedAt],
    with equality when the clock did not advance between the two
    readings. *)
Theorem add_appends_fresh_record (b : Browser) (s : CRMState) :
  (forall contact,
     fst (addContact contact (s, b)) = tt /\
     appended b (contacts s) (contacts (fst (after (addContact contact) s b)))
       (Contact.create contact (uuidSource b (uuidsDrawn b))
          (clock b (clockReads b)) (clock b (S (clockReads b))))) /\
  (forall lead,
     fst (addLead lead (s, b)) = tt /\
     appended b (leads s) (leads (fst (after (addLead lead) s b)))
       (Lead.create lead (uuidSource b (uuidsDrawn b))
          (clock b (clockReads b)) (clock b (S (clockReads b))))) /\
  (forall deal,
     fst (addDeal deal (s, b)) = tt /\
     appended b (deals s) (deals (fst (after (addDeal deal) s b)))
       (Deal.create deal (uuidSource b (uuidsDrawn b))
          (clock b (clockReads b)) (clock b (S (clockReads b))))) /\
  (forall task,
     fst (addTask task (s, b)) = tt /\
     appended b (tasks s) (tasks (fst (after (addTask task) s b)))
       (Task.create task (uuidSource b (uuidsDrawn b))
          (clock b (clockReads b)) (clock b (S (clockReads b))))).
Proof.
  refine (conj _ (conj _ (conj _ _))); intros x; (split; [reflexivity|]);
    apply appended_intro; reflexivity.
Qed.

(** The store and the browser after one contact was added. *)
Definition oneContactStore : CRMState :=
  fst (after (addContact sampleContact) emptyStore tickingBrowser).
Definition oneContactBrowser : Browser :=
  snd (after (addContact sampleContact) emptyStore tickingBrowser).

Lemma add_appends_fresh_record_witness :
  contacts (fst (after (addContact sampleContact) oneContactStore oneContactBrowser))
  = contacts oneContactStore ++ [Contact.create sampleContact "u#" 1002%Z 1003%Z] /\
  ~ In "u#" (map Contact.id (contacts oneContactStore)) /\
  (1002 <= 1003)%Z.
Proof.
  assert (HU : unique_uuids oneContactBrowser) by exact (tally_unique _ 1 2).
  assert (HM : monotone_clock oneContactBrowser) by exact (ticking_monotone 1 2).
  assert (HD : drawn oneContactBrowser (contacts oneContactStore)).
  { intros r Hr. simpl in Hr. destruct Hr as [<-|[]].
    exists 0. split; [vm_compute; lia | reflexivity]. }
  destruct (add_appends_fresh_record oneContactBrowser oneContactStore) as (Hc & _).
  destruct (Hc sampleContact) as (_ & Happ & _ & _ & _ & Hfresh & Hle & _).
  split; [exact Happ | split; [exact (Hfresh HU HD) | exact (Hle HM)]].
Defined.

(** C1, as stated, fails: the two timestamps of a new record are two
    readings of the clock, which may have advanced in between, and the
    action returns nothing. *)
Lemma add_timestamps_can_differ :
  fst (addContact sampleContact (emptyStore, tickingBrowser)) = tt /\
  exists r,
    contacts (fst (after (addContact sampleContact) emptyStore tickingBrowser)) = [r] /\
    Contact.createdAt r = 1000%Z /\ Contact.updatedAt r = 1001%Z /\
    Contact.createdAt r <> Contact.updatedAt r.
Proof.
  split; [reflexivity|].
  eexists. split; [reflexivity|]. simpl. repeat split; discriminate.
Qed.

(** C4 (amended).  In every state reached from the empty store by add,
    update and delete actions whose updates name neither [id] nor
    [createdAt], with a generator that does not repeat itself and a
    clock that does not run backwards: the identifiers of each
    collection are pairwise distinct, every record has
    [createdAt <= updatedAt], and a further such action leaves every
    identifier where it is (it appends a record, takes records out, or
    keeps the identifiers position by position). *)
Theorem reachable_store_invariants (b0 : Browser) (ops : list Op) (op : Op) :
  unique_uuids b0 -> monotone_clock b0 ->
  Forall keepsIdentity ops -> keepsIdentity op ->
  let s := fst (after (performAll ops) emptyStore b0) in
  let b := snd (after (performAll ops) emptyStore b0) in
  distinctIds s /\ timestampsOrdered s /\
  storePersists s (fst (after (perform op) s b)).
Proof.
  intros HU HM Hops Hop s b.
  destruct (@performAll_sound ops emptyStore b0 HU HM Hops (storeSound_empty b0))
    as (HS & HL).
  fold s b in HS, HL.
  refine (conj (storeSound_distinct HS) (conj (storeSound_ordered HS) _)).
  apply (@perform_sound op s b); auto.
  - exact (unique_later HL HU).
  - exact (monotone_later HL HM).
Qed.

Definition renameTo (id : string) : Deal.partial :=
  Deal.mkPartial (Some id) None None None None None None None None None None.

Definition backdateTo (createdAt : Date) : Deal.partial :=
  Deal.mkPartial None None None None None None None None (Some createdAt) None None.

Lemma reachable_store_invariants_witness :
  let ops := [AddDeal (sampleDeal DealStage.prospecting 500%Q);
              AddDeal (sampleDeal DealStage.proposal 1500%Q);
              UpdateDeal "u#" (Deal.onlyStage DealStage.closed_won);
              DeleteDeal "#"] in
  let s := fst (after (performAll ops) emptyStore tickingBrowser) in
  map Deal.id (deals s) = ["u#"] /\ distinctIds s /\ timestampsOrdered s.
Proof.
  intros ops s.
  assert (Hops : Forall keepsIdentity ops).
  { repeat constructor. }
  destruct (@reachable_store_invariants tickingBrowser ops (DeleteDeal "u#")
              (tally_unique _ 0 0) (ticking_monotone 0 0) Hops I)
    as (Hd & Ht & _).
  split; [reflexivity | split; [exact Hd | exact Ht]].
Defined.

(** C4, as stated, fails: an update may name [id] or [createdAt]. *)
Lemma update_can_rewrite_identity :
  let renamed :=
    fst (after (performAll [AddDeal (sampleDeal DealStage.prospecting 500%Q);
                            AddDeal (sampleDeal DealStage.proposal 1500%Q);
                            UpdateDeal "u#" (renameTo "#")])
               emptyStore tickingBrowser) in
  let backdated :=
    fst (after (performAll [AddDeal (sampleDeal DealStage.prospecting 500%Q);
                            UpdateDeal "#" (backdateTo 5000%Z)])
               emptyStore tickingBrowser) in
  map Deal.id (deals renamed) = ["#"; "#"] /\
  ~ distinctIds renamed /\
  ~ timestampsOrdered backdated.
Proof.
  intros renamed backdated.
  split; [reflexivity|]. split.
  - intros (_ & _ & Hd & _).
    change (map Deal.id (deals renamed)) with ["#"; "#"] in Hd.
    inversion Hd as [|x xs Hnin _]; subst. apply Hnin. simpl; auto.
  - intros (_ & _ & Hd & _).
    assert (Hin : exists r, In r (deals backdated) /\
                            Deal.createdAt r = 5000%Z /\ Deal.updatedAt r = 1002%Z).
    { eexists. split; [left; reflexivity|]. split; reflexivity. }
    destruct Hin as (r & Hr & Hc & Hu). specialize (Hd r Hr).
    rewrite Hc, Hu in Hd. lia.
Qed.

(** ** Updates and deletes *)

Lemma updateContact_after id u s b :
  after (updateContact id u) s b =
  (assign s (patchContacts (fst (Array_map
     (stamp Contact.id (fun c now => Contact.spread c u now) id) (contacts s) b))),
   snd (Array_map
     (stamp Contact.id (fun c now => Contact.spread c u now) id) (contacts s) b)).
Proof.
  unfold after. rewrite updateContact_run.
  destruct (Array_map _ _ _). reflexivity.
Qed.

Lemma updateLead_after id u s b :
  after (updateLead id u) s b =
  (assign s (patchLeads (fst (Array_map
     (stamp Lead.id (fun l now => Lead.spread l u now) id) (leads s) b))),
   snd (Array_map
     (stamp Lead.id (fun l now => Lead.spread l u now) id) (leads s) b)).
Proof.
  unfold after. rewrite updateLead_run.
  destruct (Array_map _ _ _). reflexivity.
Qed.

Lemma updateDeal_after id u s b :
  after (updateDeal id u) s b =
  (assign s (patchDeals (fst (Array_map
     (stamp Deal.id (fun d now => Deal.spread d u now) id) (deals s) b))),
   snd (Array_map
     (stamp Deal.id (fun d now => Deal.spread d u now) id) (deals s) b)).
Proof.
  unfold after. rewrite updateDeal_run.
  destruct (Array_map _ _ _). reflexivity.
Qed.

Lemma updateTask_after id u s b :
  after (updateTask id u) s b =
  (assign s (patchTasks (fst (Array_map
     (stamp Task.id (fun t now => Task.spread t u now) id) (tasks s) b))),
   snd (Array_map
     (stamp Task.id (fun t now => Task.spread t u now) id) (tasks s) b)).
Proof.
  unfold after. rewrite updateTask_run.
  destruct (Array_map _ _ _). reflexivity.
Qed.

Lemma Forall2_at {A B} (Q : A -> B -> Prop) l l' :
  Forall2 Q l l' -> forall i a, nth_error l i = Some a ->
  exists a', nth_error l' i = Some a' /\ Q a a'.
Proof.
  induction 1 as [|x y l l' Hxy HF IH]; intros i a Hi.
  - destruct i; discriminate.
  - destruct i as [|i]; simpl in *.
    + inversion Hi; subst. eauto.
    + eauto.
Qed.

Section UpdateAt.
Context {R P : Type} `{E : Entity R P}.
Variables (id : string) (p : P) (b : Browser) (l : list R).

Let result := Array_map (stamp eid (fun r now => espread r p now) id) l b.

(** The record at a position that carries the identifier is replaced,
    at the same position, by its merge with the update, stamped with a
    reading taken during the update. *)
Lemma stamp_at i r :
  nth_error l i = Some r -> eid r = id ->
  exists k, clockReads b <= k /\ k < clockReads (snd result) /\
    nth_error (fst result) i = Some (espread r p (clock b k)).
Proof.
  intros Hi Hid. subst result.
  pose proof (stamp_all eid (fun r now => espread r p now) id l b) as HS.
  destruct (Array_map _ l b) as [l' b']. destruct HS as (HF & _ & _).
  destruct (Forall2_at HF _ Hi) as (r' & Hr' & Hrep).
  unfold replaced in Hrep. rewrite <- Hid, String.eqb_refl in Hrep.
  destruct Hrep as (k & Hk1 & Hk2 & ->). exists k. simpl. auto.
Qed.

(** Every position holds what it held, or its merge with the update. *)
Lemma stamp_positions :
  Forall2 (fun r r' => r' = r \/ (eid r = id /\ exists t, r' = espread r p t))
          l (fst result).
Proof.
  subst result.
  pose proof (stamp_all eid (fun r now => espread r p now) id l b) as HS.
  destruct (Array_map _ l b) as [l' b']. destruct HS as (HF & _ & _). simpl.
  eapply Forall2_impl; [|exact HF]. intros r r' Hrep. unfold replaced in Hrep.
  destruct (String.eqb_spec (eid r) id) as [Heq|Hne].
  - destruct Hrep as (k & _ & _ & ->). right. split; eauto.
  - left. exact Hrep.
Qed.

Lemma stamp_not_earlier r k :
  monotone_clock b -> stampedEarlier b r -> clockReads b <= k ->
  (eupdatedAt r <= eupdatedAt (espread r p (clock b k)))%Z.
Proof.
  intros HM (j & Hj & ->) Hk. rewrite espread_updatedAt. apply HM. lia.
Qed.
End UpdateAt.

(** Every field but [updatedAt] that the update does not name is the
    same in [r'] as in [r]. *)
Definition contactFrame (u : Contact.partial) (r r' : Contact.t) : Prop :=
  (Contact.p_id u = None -> Contact.id r' = Contact.id r) /\
  (Contact.p_name u = None -> Contact.name r' = Contact.name r) /\
  (Contact.p_email u = None -> Contact.email r' = Contact.email r) /\
  (Contact.p_phone u = None -> Contact.phone r' = Contact.phone r) /\
  (Contact.p_company u = None -> Contact.company r' = Contact.company r) /\
  (Contact.p_position u = None -> Contact.position r' = Contact.position r) /\
  (Contact.p_tags u = None -> Contact.tags r' = Contact.tags r) /\
  (Contact.p_createdAt u = None -> Contact.createdAt r' = Contact.createdAt r) /\
  (Contact.p_notes u = None -> Contact.notes r' = Contact.notes r).

Definition leadFrame (u : Lead.partial) (r r' : Lead.t) : Prop :=
  (Lead.p_id u = None -> Lead.id r' = Lead.id r) /\
  (Lead.p_name u = None -> Lead.name r' = Lead.name r) /\
  (Lead.p_email u = None -> Lead.email r' = Lead.email r) /\
  (Lead.p_phone u = None -> Lead.phone r' = Lead.phone r) /\
  (Lead.p_company u = None -> Lead.company r' = Lead.company r) /\
  (Lead.p_value u = None -> Lead.value r' = Lead.value r) /\
  (Lead.p_status u = None -> Lead.status r' = Lead.status r) /\
  (Lead.p_assignedTo u = None -> Lead.assignedTo r' = Lead.assignedTo r) /\
  (Lead.p_source u = None -> Lead.source r' = Lead.source r) /\
  (Lead.p_createdAt u = None -> Lead.createdAt r' = Lead.createdAt r) /\
  (Lead.p_notes u = None -> Lead.notes r' = Lead.notes r).

Definition dealFrame (u : Deal.partial) (r r' : Deal.t) : Prop :=
  (Deal.p_id u = None -> Deal.id r' = Deal.id r) /\
  (Deal.p_title u = None -> Deal.title r' = Deal.title r) /\
  (Deal.p_value u = None -> Deal.value r' = Deal.value r) /\
  (Deal.p_stage u = None -> Deal.stage r' = Deal.stage r) /\
  (Deal.p_contactId u = None -> Deal.contactId r' = Deal.contactId r) /\
  (Deal.p_assignedTo u = None -> Deal.assignedTo r' = Deal.assignedTo r) /\
  (Deal.p_closeDate u = None -> Deal.closeDate r' = Deal.closeDate r) /\
  (Deal.p_probability u = None -> Deal.probability r' = Deal.probability r) /\
  (Deal.p_createdAt u = None -> Deal.createdAt r' = Deal.createdAt r) /\
  (Deal.p_notes u = None -> Deal.notes r' = Deal.notes r).

Definition taskFrame (u : Task.partial) (r r' : Task.t) : Prop :=
  (Task.p_id u = None -> Task.id r' = Task.id r) /\
  (Task.p_title u = None -> Task.title r' = Task.title r) /\
  (Task.p_description u = None -> Task.description r' = Task.description r) /\
  (Task.p_dueDate u = None -> Task.dueDate r' = Task.dueDate r) /\
  (Task.p_priority u = None -> Task.priority r' = Task.priority r) /\
  (Task.p_status u = None -> Task.status r' = Task.status r) /\
  (Task.p_assignedTo u = None -> Task.assignedTo r' = Task.assignedTo r) /\
  (Task.p_relatedTo u = None -> Task.relatedTo r' = Task.relatedTo r) /\
  (Task.p_createdAt u = None -> Task.createdAt r' = Task.createdAt r).

Ltac frame := repeat split; intros Hnone; simpl; rewrite Hnone; reflexivity.

Lemma contactFrame_spread u r t : contactFrame u r (Contact.spread r u t).
Proof. frame. Qed.

Lemma leadFrame_spread u r t : leadFrame u r (Lead.spread r u t).
Proof. frame. Qed.

Lemma dealFrame_spread u r t : dealFrame u r (Deal.spread r u t).
Proof. frame. Qed.

Lemma taskFrame_spread u r t : taskFrame u r (Task.spread r u t).
Proof. frame. Qed.

(** What an update does to a record [r] that carries the identifier:
    [r'] takes its place, merged with the update and stamped with the
    reading [clock b k] taken during the update. *)
Definition updatedInPlace {R P} `{Entity R P}
    (b b' : Browser) (old new : list R) (i : nat) (r r' : R) : Prop :=
  nth_error new i = Some r' /\
  (exists k, clockReads b <= k /\ k < clockReads b' /\ eupdatedAt r' = clock b k) /\
  (monotone_clock b -> stampedEarlier b r -> (eupdatedAt r <= eupdatedAt r')%Z).

Lemma updatedInPlace_intro {R P} `{Entity R P} id p b (l : list R) i r :
  nth_error l i = Some r -> eid r = id ->
  exists t,
    updatedInPlace b
      (snd (Array_map (stamp eid (fun r now => espread r p now) id) l b)) l
      (fst (Array_map (stamp eid (fun r now => espread r p now) id) l b))
      i r (espread r p t).
Proof.
  intros Hi Hid. destruct (@stamp_at _ _ _ id p b l i r Hi Hid) as (k & Hk1 & Hk2 & Hnth).
  exists (clock b k). unfold updatedInPlace. split; [exact Hnth|]. split.
  - exists k. rewrite espread_updatedAt. auto.
  - intros HM HE. apply stamp_not_earlier; auto.
Qed.

(** C2 (amended).  When a record with the identifier exists, an update
    replaces it, at its position, by a record in which every field the
    update does not name, [updatedAt] apart, has its previous value (so
    [createdAt] is unchanged when the update does not name it), and
    whose [updatedAt] is a clock reading taken during the update: it is
    not earlier than the previous value when the clock does not run
    backwards. *)
Theorem update_keeps_unnamed_fields (b : Browser) (s : CRMState) (id : string) :
  (forall u i r, nth_error (contacts s) i = Some r -> Contact.id r = id ->
     exists r', contactFrame u r r' /\
       updatedInPlace b (snd (after (updateContact id u) s b)) (contacts s)
         (contacts (fst (after (updateContact id u) s b))) i r r') /\
  (forall u i r, nth_error (leads s) i = Some r -> Lead.id r = id ->
     exists r', leadFrame u r r' /\
       updatedInPlace b (snd (after (updateLead id u) s b)) (leads s)
         (leads (fst (after (updateLead id u) s b))) i r r') /\
  (forall u i r, nth_error (deals s) i = Some r -> Deal.id r = id ->
     exists r', dealFrame u r r' /\
       updatedInPlace b (snd (after (updateDeal id u) s b)) (deals s)
         (deals (fst (after (updateDeal id u) s b))) i r r') /\
  (forall u i r, nth_error (tasks s) i = Some r -> Task.id r = id ->
     exists r', taskFrame u r r' /\
       updatedInPlace b (snd (after (updateTask id u) s b)) (tasks s)
         (tasks (fst (after (updateTask id u) s b))) i r r').
Proof.
  refine (conj _ (conj _ (conj _ _))); intros u i r Hi Hid.
  - rewrite updateContact_after.
    destruct (@updatedInPlace_intro _ _ ContactEntity id u b (contacts s) i r Hi Hid)
      as (t & Ht).
    exists (Contact.spread r u t). split; [apply contactFrame_spread | exact Ht].
  - rewrite updateLead_after.
    destruct (@updatedInPlace_intro _ _ LeadEntity id u b (leads s) i r Hi Hid)
      as (t & Ht).
    exists (Lead.spread r u t). split; [apply leadFrame_spread | exact Ht].
  - rewrite updateDeal_after.
    destruct (@updatedInPlace_intro _ _ DealEntity id u b (deals s) i r Hi Hid)
      as (t & Ht).
    exists (Deal.spread r u t). split; [apply dealFrame_spread | exact Ht].
  - rewrite updateTask_after.
    destruct (@updatedInPlace_intro _ _ TaskEntity id u b (tasks s) i r Hi Hid)
      as (t & Ht).
    exists (Task.spread r u t). split; [apply taskFrame_spread | exact Ht].
Qed.

Definition renameContact (name : string) : Contact.partial :=
  Contact.mkPartial None (Some name) None None None None None None None None.

Definition backdateContact (createdAt : Date) : Contact.partial :=
  Contact.mkPartial None None None None None None None (Some createdAt) None None.

Lemma update_keeps_unnamed_fields_witness :
  exists r',
    nth_error (contacts (fst (after (updateContact "#" (renameContact "Grace"))
                                    oneContactStore oneContactBrowser))) 0 = Some r' /\
    Contact.email r' = "ada@example.com" /\
    Contact.createdAt r' = 1000%Z.
Proof.
  destruct (update_keeps_unnamed_fields oneContactBrowser oneContactStore "#")
    as (Hc & _).
  destruct (Hc (renameContact "Grace") 0
               (Contact.create sampleContact "#" 1000%Z 1001%Z)
               eq_refl eq_refl) as (r' & Hframe & Hnth & _).
  exists r'. split; [exact Hnth|].
  destruct Hframe as (_ & _ & Hemail & _ & _ & _ & _ & Hcreated & _).
  split; [exact (Hemail eq_refl) | exact (Hcreated eq_refl)].
Defined.

(** C2, as stated, fails: an update in the millisecond of the previous
    stamp leaves [updatedAt] where it was, and an update that names
    [createdAt] changes it. *)
Lemma update_need_not_advance_updatedAt :
  let s := fst (after (addContact sampleContact) emptyStore frozenBrowser) in
  let b := snd (after (addContact sampleContact) emptyStore frozenBrowser) in
  exists r r' r'',
    contacts s = [r] /\ Contact.id r = "#" /\
    contacts (fst (after (updateContact "#" (renameContact "Grace")) s b)) = [r'] /\
    ~ (Contact.updatedAt r < Contact.updatedAt r')%Z /\
    contacts (fst (after (updateContact "#" (backdateContact 5%Z)) s b)) = [r''] /\
    Contact.createdAt r'' <> Contact.createdAt r.
Proof.
  intros s b. do 3 eexists.
  split; [reflexivity|]. split; [reflexivity|].
  split; [reflexivity|]. split; [simpl; lia|].
  split; [reflexivity|]. simpl. discriminate.
Qed.

Lemma assign_same_contacts s : assign s (patchContacts (contacts s)) = s.
Proof. destruct s; reflexivity. Qed.
Lemma assign_same_leads s : assign s (patchLeads (leads s)) = s.
Proof. destruct s; reflexivity. Qed.
Lemma assign_same_deals s : assign s (patchDeals (deals s)) = s.
Proof. destruct s; reflexivity. Qed.
Lemma assign_same_tasks s : assign s (patchTasks (tasks s)) = s.
Proof. destruct s; reflexivity. Qed.

(** C3.  An update or a delete under an identifier that no record of
    the collection carries completes and leaves the store (and the
    browser) as they were. *)
Theorem missing_id_changes_nothing (b : Browser) (s : CRMState) (id : string) :
  ((forall r, In r (contacts s) -> Contact.id r <> id) ->
     (forall u, after (updateContact id u) s b = (s, b)) /\
     after (deleteContact id) s b = (s, b)) /\
  ((forall r, In r (leads s) -> Lead.id r <> id) ->
     (forall u, after (updateLead id u) s b = (s, b)) /\
     after (deleteLead id) s b = (s, b)) /\
  ((forall r, In r (deals s) -> Deal.id r <> id) ->
     (forall u, after (updateDeal id u) s b = (s, b)) /\
     after (deleteDeal id) s b = (s, b)) /\
  ((forall r, In r (tasks s) -> Task.id r <> id) ->
     (forall u, after (updateTask id u) s b = (s, b)) /\
     after (deleteTask id) s b = (s, b)).
Proof.
  refine (conj _ (conj _ (conj _ _))); intros Habsent; split.
  - intros u. rewrite updateContact_after, stamp_absent by exact Habsent.
    simpl. rewrite assign_same_contacts. reflexivity.
  - unfold after, deleteContact, set, ret. simpl.
    rewrite (remove_absent Contact.id _ Habsent), assign_same_contacts. reflexivity.
  - intros u. rewrite updateLead_after, stamp_absent by exact Habsent.
    simpl. rewrite assign_same_leads. reflexivity.
  - unfold after, deleteLead, set, ret. simpl.
    rewrite (remove_absent Lead.id _ Habsent), assign_same_leads. reflexivity.
  - intros u. rewrite updateDeal_after, stamp_absent by exact Habsent.
    simpl. rewrite assign_same_deals. reflexivity.
  - unfold after, deleteDeal, set, ret. simpl.
    rewrite (remove_absent Deal.id _ Habsent), assign_same_deals. reflexivity.
  - intros u. rewrite updateTask_after, stamp_absent by exact Habsent.
    simpl. rewrite assign_same_tasks. reflexivity.
  - unfold after, deleteTask, set, ret. simpl.
    rewrite (remove_absent Task.id _ Habsent), assign_same_tasks. reflexivity.
Qed.

Lemma missing_id_changes_nothing_witness :
  after (updateContact "nobody" (renameContact "Grace")) oneContactStore oneContactBrowser
    = (oneContactStore, oneContactBrowser) /\
  after (deleteContact "nobody") oneContactStore oneContactBrowser
    = (oneContactStore, oneContactBrowser).
Proof.
  destruct (missing_id_changes_nothing oneContactBrowser oneContactStore "nobody")
    as (Hc & _).
  assert (Habsent : forall r, In r (contacts oneContactStore) -> Contact.id r <> "nobody").
  { intros r Hr. simpl in Hr. destruct Hr as [<-|[]]. simpl. discriminate. }
  destruct (Hc Habsent) as (Hu & Hd).
  split; [exact (Hu (renameContact "Grace")) | exact Hd].
Defined.

(** Same length, and every position holds what it held or its merge
    with the update. *)
Definition samePositions {R P} `{Entity R P} (id : string) (p : P)
    (old new : list R) : Prop :=
  List.length new = List.length old /\
  Forall2 (fun r r' => r' = r \/ (eid r = id /\ exists t, r' = espread r p t))
          old new.

Lemma samePositions_intro {R P} `{Entity R P} id (p : P) b (l : list R) :
  samePositions id p l
    (fst (Array_map (stamp eid (fun r now => espread r p now) id) l b)).
Proof.
  pose proof (stamp_positions id p b l) as HF.
  split; [symmetry; exact (Forall2_length HF) | exact HF].
Qed.

(** C9.  An update, whether or not a record carries the identifier,
    keeps the length of the collection and the position of every
    record: it inserts, removes and reorders nothing. *)
Theorem update_preserves_length_and_order (b : Browser) (s : CRMState) (id : string) :
  (forall u, samePositions id u (contacts s)
               (contacts (fst (after (updateContact id u) s b)))) /\
  (forall u, samePositions id u (leads s)
               (leads (fst (after (updateLead id u) s b)))) /\
  (forall u, samePositions id u (deals s)
               (deals (fst (after (updateDeal id u) s b)))) /\
  (forall u, samePositions id u (tasks s)
               (tasks (fst (after (updateTask id u) s b)))).
Proof.
  refine (conj _ (conj _ (conj _ _))); intros u.
  - rewrite updateContact_after. exact (@samePositions_intro _ _ ContactEntity id u b (contacts s)).
  - rewrite updateLead_after. exact (@samePositions_intro _ _ LeadEntity id u b (leads s)).
  - rewrite updateDeal_after. exact (@samePositions_intro _ _ DealEntity id u b (deals s)).
  - rewrite updateTask_after. exact (@samePositions_intro _ _ TaskEntity id u b (tasks s)).
Qed.

(** C10.  An action on one collection leaves the three other
    collections of the store as they were. *)
Theorem mutation_leaves_other_collections (op : Op) (s : CRMState) (b : Browser) :
  match target op with
  | Contacts =>
      leads (fst (after (perform op) s b)) = leads s /\
      deals (fst (after (perform op) s b)) = deals s /\
      tasks (fst (after (perform op) s b)) = tasks s
  | Leads =>
      contacts (fst (after (perform op) s b)) = contacts s /\
      deals (fst (after (perform op) s b)) = deals s /\
      tasks (fst (after (perform op) s b)) = tasks s
  | Deals =>
      contacts (fst (after (perform op) s b)) = contacts s /\
      leads (fst (after (perform op) s b)) = leads s /\
      tasks (fst (after (perform op) s b)) = tasks s
  | Tasks =>
      contacts (fst (after (perform op) s b)) = contacts s /\
      leads (fst (after (perform op) s b)) = leads s /\
      deals (fst (after (perform op) s b)) = deals s
  end.
Proof.
  destruct op; simpl target; simpl perform;
    try (repeat split; reflexivity);
    first [ rewrite updateContact_after | rewrite updateLead_after
          | rewrite updateDeal_after | rewrite updateTask_after ];
    repeat split; reflexivity.
Qed.

(* ================================================================== *)
(** * Properties of the session store *)

(** C7.  Whatever the email and the password, [login] awaits its
    one-second timer, returns [true] and leaves the session
    authenticated with a user built from the email alone: the role is
    admin for "admin@crm.com", manager for "manager@crm.com" and
    salesperson for every other address; the password changes
    nothing. *)
Theorem login_always_succeeds (email password : string) (st : AuthState) (waited : Z) :
  exists u,
    login email password (st, waited) =
      (true, (mkAuthState (Some u) true, (waited + 1000)%Z)) /\
    User.id u = "1" /\ User.email u = email /\ User.avatar u = None /\
    (email = "admin@crm.com" ->
       User.role u = UserRole.admin /\ User.name u = "Admin User") /\
    (email = "manager@crm.com" ->
       User.role u = UserRole.manager /\ User.name u = "John Doe") /\
    (email <> "admin@crm.com" -> email <> "manager@crm.com" ->
       User.role u = UserRole.salesperson /\ User.name u = "John Doe") /\
    (forall password',
       login email password' (st, waited) = login email password (st, waited)).
Proof.
  exists (User.mk "1"
            (if String.eqb email "admin@crm.com" then "Admin User" else "John Doe")
            email
            (if String.eqb email "admin@crm.com" then UserRole.admin
             else if String.eqb email "manager@crm.com" then UserRole.manager
             else UserRole.salesperson)
            None).
  split; [reflexivity|]. simpl.
  repeat split; try reflexivity.
  - subst email. reflexivity.
  - subst email. reflexivity.
  - subst email. reflexivity.
  - subst email. reflexivity.
  - destruct (String.eqb_spec email "admin@crm.com"); [contradiction|].
    destruct (String.eqb_spec email "manager@crm.com"); [contradiction|].
    reflexivity.
  - destruct (String.eqb_spec email "admin@crm.com"); [contradiction|].
    reflexivity.
Qed.

Lemma login_always_succeeds_witness :
  exists u,
    login "manager@crm.com" "wrong password" (mkAuthState None false, 0%Z) =
      (true, (mkAuthState (Some u) true, 1000%Z)) /\
    User.role u = UserRole.manager.
Proof.
  destruct (login_always_succeeds "manager@crm.com" "wrong password"
              (mkAuthState None false) 0)
    as (u & Hrun & _ & _ & _ & _ & Hmanager & _).
  exists u. split; [exact Hrun | exact (proj1 (Hmanager eq_refl))].
Defined.

(* ================================================================== *)
(** * Properties of the derived views *)

(** ** Ratios *)

Definition isConverted (lead : Lead.t) : bool :=
  match Lead.status lead with
  | LeadStatus.converted => true
  | _ => false
  end.

Definition isClosedWon (deal : Deal.t) : bool :=
  match Deal.stage deal with
  | DealStage.closed_won => true
  | _ => false
  end.

(** The number of converted leads, and the number and the summed value
    of the closed-won deals. *)
Fixpoint convertedCount (leads : list Lead.t) : nat :=
  match leads with
  | [] => 0
  | lead :: rest =>
      (if isConverted lead then 1 else 0) + convertedCount rest
  end.


Fixpoint wonValue (deals : list Deal.t) : Q :=
  match deals with
  | [] => 0%Q
  | deal :: rest =>
      if isClosedWon deal then (Deal.value deal + wonValue rest)%Q
      else wonValue rest
  end.

Definition ofNat (n : nat) : Q := inject_Z (Z.of_nat n).




Lemma convertedCount_le leads : convertedCount leads <= List.length leads.
Proof.
  induction leads as [|lead rest IH]; simpl; [lia|].
  destruct (isConverted lead); lia.
Qed.




Lemma ofNat_nonzero n : 0 < n -> Qeq_bool (ofNat n) 0 = false.
Proof.
  intros Hn. unfold ofNat, Qeq_bool, inject_Z. simpl.
  apply Z.eqb_neq. lia.
Qed.






Definition sampleWonDeal (id : string) (value : Q) (stage : DealStage.t) : Deal.t :=
  Deal.mk id "Licence" value stage "c1" "Ada" 2000%Z 50%Q 1000%Z 1000%Z "".


(** ** Filters *)










(** ** The pipeline board *)

(** The stage whose column carries the identifier, if there is one. *)
Definition columnStage (overId : string) : option DealStage.t :=
  find (fun stage => String.eqb (DealStage.to_string stage) overId)
       [DealStage.prospecting; DealStage.qualification; DealStage.proposal;
        DealStage.negotiation; DealStage.closed_won; DealStage.closed_lost].

(** [deals.find(d => d.id === id)] *)
Definition dealWithId (deals : list Deal.t) (id : string) : option Deal.t :=
  find (fun d => String.eqb (Deal.id d) id) deals.

(** The target stage of a drop: the stage of the column dropped on, or
    else the current stage of the deal dropped on. *)
Definition resolveTarget (deals : list Deal.t) (overId : string)
  : option DealStage.t :=
  match columnStage overId with
  | Some stage => Some stage
  | None => option_map Deal.stage (dealWithId deals overId)
  end.

(** The drag moves the deal [dealId] to [target]: the card was dropped
    on something other than its own identifier, a target stage was
    resolved, and it is not the stage the dragged deal is in. *)
Definition moves (deals : list Deal.t) (event : DragEndEvent)
    (dealId : string) (target : DealStage.t) : Prop :=
  exists overId deal,
    over event = Some overId /\
    resolveTarget deals overId = Some target /\
    active event <> overId /\
    dealWithId deals (active event) = Some deal /\
    Deal.id deal = dealId /\
    Deal.stage deal <> target.

(** The same without the condition on the identifiers. *)
Definition movesAsStated (deals : list Deal.t) (event : DragEndEvent)
    (dealId : string) (target : DealStage.t) : Prop :=
  exists overId deal,
    over event = Some overId /\
    resolveTarget deals overId = Some target /\
    dealWithId deals (active event) = Some deal /\
    Deal.id deal = dealId /\
    Deal.stage deal <> target.

Lemma stage_literal_injective s1 s2 :
  String.eqb (DealStage.to_string s1) (DealStage.to_string s2) = true <-> s1 = s2.
Proof.
  split; [|intros ->; apply String.eqb_refl].
  destruct s1, s2; simpl; intros H; try reflexivity; discriminate.
Qed.

Lemma newStage_resolved deals overId :
  match find (fun stage =>
          String.eqb (DealStage.to_string (StageColumn.id stage)) overId)
          pipelineStages with
  | Some stageColumn => Some (StageColumn.id stageColumn)
  | None =>
      match find (fun d => String.eqb (Deal.id d) overId) deals with
      | Some overDeal => Some (Deal.stage overDeal)
      | None => None
      end
  end = resolveTarget deals overId.
Proof.
  unfold resolveTarget, columnStage, dealWithId, pipelineStages.
  cbn [find StageColumn.id DealStage.to_string].
  repeat match goal with
         | |- context [String.eqb ?lit overId] =>
             destruct (String.eqb lit overId); [reflexivity|]
         end.
  destruct (find _ deals); reflexivity.
Qed.

(** The handler in terms of the resolved target. *)
Lemma handleDragEnd_run deals event :
  handleDragEnd deals event =
  match over event with
  | None => ret tt
  | Some overId =>
      match resolveTarget deals overId with
      | Some stage =>
          if negb (String.eqb (active event) overId)
          then match dealWithId deals (active event) with
               | Some deal =>
                   if negb (String.eqb (DealStage.to_string (Deal.stage deal))
                                       (DealStage.to_string stage))
                   then updateDeal (Deal.id deal) (Deal.onlyStage stage)
                   else ret tt
               | None => ret tt
               end
          else ret tt
      | None => ret tt
      end
  end.
Proof.
  unfold handleDragEnd. destruct (over event) as [overId|]; [|reflexivity].
  cbv zeta. rewrite newStage_resolved. reflexivity.
Qed.

(** C5 (amended).  At the end of a drag the target stage is the stage
    of the column dropped on or else the current stage of the deal
    dropped on; when a target was resolved, the identifier dropped on is
    not the identifier of the dragged card, and the target is not the
    stage the dragged deal is in, the handler makes exactly the one call
    [updateDeal(deal.id, { stage: target })]; in every other case it
    leaves the store as it was. *)
Theorem drag_end_moves_or_does_nothing
    (deals : list Deal.t) (event : DragEndEvent) (s : CRMState) (b : Browser) :
  (forall dealId target,
     moves deals event dealId target ->
     handleDragEnd deals event (s, b)
     = updateDeal dealId (Deal.onlyStage target) (s, b)) /\
  ((forall dealId target, ~ moves deals event dealId target) ->
   handleDragEnd deals event (s, b) = (tt, (s, b))).
Proof.
  rewrite handleDragEnd_run. split.
  - intros dealId target (overId & deal & Hover & Htarget & Hne & Hdeal & Hid & Hstage).
    rewrite Hover, Htarget, Hdeal, Hid.
    destruct (String.eqb_spec (active event) overId) as [Heq|_]; [contradiction|].
    simpl negb. cbv iota.
    destruct (String.eqb (DealStage.to_string (Deal.stage deal))
                         (DealStage.to_string target)) eqn:Hs; [|reflexivity].
    apply stage_literal_injective in Hs. contradiction.
  - intros Hnone.
    destruct (over event) as [overId|] eqn:Hover; [|reflexivity].
    destruct (resolveTarget deals overId) as [target|] eqn:Htarget; [|reflexivity].
    destruct (String.eqb_spec (active event) overId) as [Heq|Hne]; [reflexivity|].
    simpl negb. cbv iota.
    destruct (dealWithId deals (active event)) as [deal|] eqn:Hdeal; [|reflexivity].
    destruct (String.eqb (DealStage.to_string (Deal.stage deal))
                         (DealStage.to_string target)) eqn:Hs; [reflexivity|].
    exfalso. apply (Hnone (Deal.id deal) target).
    exists overId, deal. repeat split; auto.
    intros Heq. rewrite Heq, String.eqb_refl in Hs. discriminate.
Qed.

(** The board of the examples: one deal, in prospecting. *)
Definition boardDeal (id : string) : Deal.t :=
  sampleWonDeal id 500%Q DealStage.prospecting.

Definition boardStore (id : string) : CRMState :=
  mkCRMState [] [] [boardDeal id] [].

Lemma drag_end_moves_or_does_nothing_witness :
  map Deal.stage
    (deals (fst (after (handleDragEnd [boardDeal "#"]
                          (mkDragEndEvent "#" (Some "closed-won")))
                       (boardStore "#") tickingBrowser)))
  = [DealStage.closed_won].
Proof.
  destruct (drag_end_moves_or_does_nothing [boardDeal "#"]
              (mkDragEndEvent "#" (Some "closed-won"))
              (boardStore "#") tickingBrowser) as (Hmove & _).
  unfold after. rewrite (Hmove "#" DealStage.closed_won).
  - reflexivity.
  - exists "closed-won", (boardDeal "#").
    repeat split; try reflexivity; discriminate.
Defined.

(** C5, as stated, fails: a card dropped on its own identifier is left
    alone, also when that identifier is the name of a column other than
    the one the deal is in. *)
Lemma drop_on_own_identifier_is_ignored :
  let board := [boardDeal "proposal"] in
  let drop := mkDragEndEvent "proposal" (Some "proposal") in
  movesAsStated board drop "proposal" DealStage.proposal /\
  handleDragEnd board drop (boardStore "proposal", tickingBrowser)
    = (tt, (boardStore "proposal", tickingBrowser)) /\
  updateDeal "proposal" (Deal.onlyStage DealStage.proposal)
             (boardStore "proposal", tickingBrowser)
    <> (tt, (boardStore "proposal", tickingBrowser)).
Proof.
  intros board drop. split; [|split].
  - exists "proposal", (boardDeal "proposal").
    repeat split; try reflexivity; discriminate.
  - reflexivity.
  - intros H. apply (f_equal (fun r => map Deal.stage (deals (fst (snd r))))) in H.
    discriminate.
Qed.

(** When the dragged card does not carry the name of a column, as is
    the case of every identifier the store generates, the condition on
    the identifiers is implied by the others. *)
Lemma moves_without_guard deals event dealId target :
  columnStage (active event) = None ->
  movesAsStated deals event dealId target -> moves deals event dealId target.
Proof.
  intros Hcol (overId & deal & Hover & Htarget & Hdeal & Hid & Hstage).
  exists overId, deal. repeat split; auto.
  intros Heq. apply Hstage. rewrite <- Heq in Htarget.
  unfold resolveTarget in Htarget. rewrite Hcol, Hdeal in Htarget.
  simpl in Htarget. congruence.
Qed.

(* ================================================================== *)
(** * More of the code: the rest of the stores and of the pages *)

(** [Array.prototype.filter] with a callback that has effects. *)
Fixpoint Array_filter {S A} (f : A -> State S bool) (xs : list A)
  : State S (list A) :=
  match xs with
  | [] => ret []
  | x :: rest =>
      keep <- f x ;;
      kept <- Array_filter f rest ;;
      ret (if keep then x :: kept else kept)
  end.

(** ** The session store, continued (authStore.ts) *)

(** [Partial<User>] *)
Module PartialUser.
Record t := mk {
  id : option string; name : option string; email : option string;
  role : option UserRole.t; avatar : option string }.
End PartialUser.

(** [{ ...user, ...updates }] *)
Definition spreadUser (user : User.t) (updates : PartialUser.t) : User.t :=
  User.mk (spreadKey (PartialUser.id updates) (User.id user))
          (spreadKey (PartialUser.name updates) (User.name user))
          (spreadKey (PartialUser.email updates) (User.email user))
          (spreadKey (PartialUser.role updates) (User.role user))
          (match PartialUser.avatar updates with
           | Some a => Some a
           | None => User.avatar user
           end).

(** [set((state) => patch)] of the session store *)
Definition setAuthWith (updater : AuthState -> AuthPatch) : Auth unit :=
  fun st => (tt, (assignAuth (fst st) (updater (fst st)), snd st)).

Definition updateUser (updates : PartialUser.t) : Auth unit :=
  setAuthWith (fun state =>
    mkAuthPatch
      (Some (match user state with
             | Some u => Some (spreadUser u updates)
             | None => None
             end))
      None).

(** ** Settings.tsx *)

Module SettingsPage.
(** The fields of [profileData] the handler reads. *)
Record profileData := mkProfileData { name : string; email : string }.

Definition handleSaveProfile (data : profileData) : Auth unit :=
  updateUser (PartialUser.mk None (Some (name data)) (Some (email data)) None None).
End SettingsPage.

(** ** Pipeline.tsx, continued *)

Module PipelinePage.



Definition wonValue (deals : list Deal.t) : Q :=
  fold_left (fun sum deal => (sum + Deal.value deal)%Q)
    (filter (fun deal =>
       String.eqb (DealStage.to_string (Deal.stage deal)) "closed-won") deals)
    0%Q.

Definition conversionRate (deals : list Deal.t) : JsNumber.t :=
  if 0 <? List.length deals
  then JsNumber.mul
         (JsNumber.div
            (JsNumber.ofCount (List.length (filter (fun deal =>
               String.eqb (DealStage.to_string (Deal.stage deal)) "closed-won")
               deals)))
            (JsNumber.ofCount (List.length deals)))
         (JsNumber.Num 100)
  else JsNumber.Num 0.

(** The columns of the board, as rendered: one per entry of
    [pipelineStages], each with [getDealsByStage(stage.id)]. *)
Definition columns (deals : list Deal.t) : list (list Deal.t) :=
  map (fun stage =>
         getDealsByStage deals (DealStage.to_string (StageColumn.id stage)))
      pipelineStages.
End PipelinePage.

(** ** Tasks.tsx, continued *)

Module TasksPage.

(** The partial [{ status }]. *)
Definition onlyStatus (status : TaskStatus.t) : Task.partial :=
  Task.mkPartial None None None None None (Some status) None None None None.

Definition handleToggleStatus (task : Task.t) : Store unit :=
  let newStatus :=
    if String.eqb (TaskStatus.to_string (Task.status task)) "completed"
    then TaskStatus.pending else TaskStatus.completed in
  updateTask (Task.id task) (onlyStatus newStatus).

(** date-fns: [isAfter(date, dateToCompare)], [isBefore(date, dateToCompare)] *)
Definition isAfter (date dateToCompare : Date) : bool := (dateToCompare <? date)%Z.
Definition isBefore (date dateToCompare : Date) : bool := (date <? dateToCompare)%Z.

Definition isOverdue (task : Task.t) : Eff bool :=
  if negb (String.eqb (TaskStatus.to_string (Task.status task)) "completed")
  then now <- newDate ;; ret (isAfter now (Task.dueDate task))
  else ret false.

Section DueSoon.
(** date-fns [addDays]: the same local time, so many calendar days on. *)
Variable addDays : Date -> Z -> Date.

Definition isDueSoon (task : Task.t) : Eff bool :=
  today <- newDate ;;
  let threeDaysFromNow := addDays today 3 in
  if negb (String.eqb (TaskStatus.to_string (Task.status task)) "completed")
  then now <- newDate ;;
       ret (isAfter (Task.dueDate task) now &&
            isBefore (Task.dueDate task) threeDaysFromNow)
  else ret false.

Record stats := mkStats {
  totalTasks : nat; completedTasks : nat;
  overdueTasks : nat; dueSoonTasks : nat }.

Definition computeStats (tasks : list Task.t) : Eff stats :=
  let totalTasks := List.length tasks in
  let completedTasks :=
    List.length (filter (fun t =>
      String.eqb (TaskStatus.to_string (Task.status t)) "completed") tasks) in
  overdue <- Array_filter isOverdue tasks ;;
  dueSoon <- Array_filter isDueSoon tasks ;;
  ret (mkStats totalTasks completedTasks (List.length overdue) (List.length dueSoon)).
End DueSoon.

Record statusCounts := mkStatusCounts {
  all : nat; pending : nat; in_progress : nat; completed : nat }.

Definition countByStatus (tasks : list Task.t) : statusCounts :=
  mkStatusCounts
    (List.length tasks)
    (List.length (filter (fun t =>
       String.eqb (TaskStatus.to_string (Task.status t)) "pending") tasks))
    (List.length (filter (fun t =>
       String.eqb (TaskStatus.to_string (Task.status t)) "in-progress") tasks))
    (List.length (filter (fun t =>
       String.eqb (TaskStatus.to_string (Task.status t)) "completed") tasks)).
End TasksPage.

(** ** Leads.tsx, continued *)

Module LeadsPage.
Record statusCounts := mkStatusCounts {
  all : nat; new : nat; qualified : nat; converted : nat; lost : nat }.

Definition countByStatus (leads : list Lead.t) : statusCounts :=
  mkStatusCounts
    (List.length leads)
    (List.length (filter (fun l =>
       String.eqb (LeadStatus.to_string (Lead.status l)) "new") leads))
    (List.length (filter (fun l =>
       String.eqb (LeadStatus.to_string (Lead.status l)) "qualified") leads))
    (List.length (filter (fun l =>
       String.eqb (LeadStatus.to_string (Lead.status l)) "converted") leads))
    (List.length (filter (fun l =>
       String.eqb (LeadStatus.to_string (Lead.status l)) "lost") leads)).
End LeadsPage.

(** ** Dashboard.tsx, continued *)

Module DashboardPage.
Definition pendingTasks (tasks : list Task.t) : nat :=
  List.length (filter (fun task =>
    String.eqb (TaskStatus.to_string (Task.status task)) "pending") tasks).

Definition overdueTasks (tasks : list Task.t) : Eff nat :=
  overdue <- Array_filter (fun task =>
      if negb (String.eqb (TaskStatus.to_string (Task.status task)) "completed")
      then now <- newDate ;; ret (TasksPage.isAfter now (Task.dueDate task))
      else ret false) tasks ;;
  ret (List.length overdue).

(** The slices of the pipeline chart: a name and a count each. *)
Definition pipelineData (deals : list Deal.t) : list (string * nat) :=
  [ ("Prospecting", List.length (filter (fun d =>
       String.eqb (DealStage.to_string (Deal.stage d)) "prospecting") deals));
    ("Qualification", List.length (filter (fun d =>
       String.eqb (DealStage.to_string (Deal.stage d)) "qualification") deals));
    ("Proposal", List.length (filter (fun d =>
       String.eqb (DealStage.to_string (Deal.stage d)) "proposal") deals));
    ("Negotiation", List.length (filter (fun d =>
       String.eqb (DealStage.to_string (Deal.stage d)) "negotiation") deals));
    ("Closed Won", List.length (filter (fun d =>
       String.eqb (DealStage.to_string (Deal.stage d)) "closed-won") deals)) ].
End DashboardPage.

(** ** Contacts.tsx, continued *)

Module ContactsPage.
(** The updater [handleSelectContact] hands to [setSelectedContacts]. *)
Definition handleSelectContact (id : string) (prev : list string) : list string :=
  if existsb (String.eqb id) prev
  then filter (fun cId => negb (String.eqb cId id)) prev
  else prev ++ [id].
End ContactsPage.

(* ================================================================== *)
(** * Properties of the rest of the session store *)

(** Every field the update does not name is the same in [u'] as in [u],
    every field it names has the value it gives. *)
Definition userMerged (updates : PartialUser.t) (u u' : User.t) : Prop :=
  (forall v, PartialUser.id updates = Some v -> User.id u' = v) /\
  (forall v, PartialUser.name updates = Some v -> User.name u' = v) /\
  (forall v, PartialUser.email updates = Some v -> User.email u' = v) /\
  (forall v, PartialUser.role updates = Some v -> User.role u' = v) /\
  (forall v, PartialUser.avatar updates = Some v -> User.avatar u' = Some v) /\
  (PartialUser.id updates = None -> User.id u' = User.id u) /\
  (PartialUser.name updates = None -> User.name u' = User.name u) /\
  (PartialUser.email updates = None -> User.email u' = User.email u) /\
  (PartialUser.role updates = None -> User.role u' = User.role u) /\
  (PartialUser.avatar updates = None -> User.avatar u' = User.avatar u).

Lemma spreadUser_merged updates u : userMerged updates u (spreadUser u updates).
Proof.
  unfold userMerged, spreadUser. destruct updates as [i n e r a]. simpl.
  repeat split; intros; subst; reflexivity.
Qed.

Lemma spreadUser_twice updates u :
  spreadUser (spreadUser u updates) updates = spreadUser u updates.
Proof.
  unfold spreadUser. destruct updates as [[i|] [n|] [e|] [r|] [a|]]; reflexivity.
Qed.

(** X1.  [updateUser] with nobody logged in changes nothing; with a user
    logged in it merges the update into that user, field by field, and
    in both cases leaves [isAuthenticated] and the time awaited as they
    were; applying the same update again changes nothing more. *)
Theorem updateUser_merges_or_skips (updates : PartialUser.t) (st : AuthState) (waited : Z) :
  (user st = None -> updateUser updates (st, waited) = (tt, (st, waited))) /\
  (forall u, user st = Some u ->
     exists u', updateUser updates (st, waited)
                = (tt, (mkAuthState (Some u') (isAuthenticated st), waited)) /\
                userMerged updates u u') /\
  snd (updateUser updates (snd (updateUser updates (st, waited))))
  = snd (updateUser updates (st, waited)).
Proof.
  destruct st as [[u|] auth]; simpl; split; [|split| |split].
  - discriminate.
  - intros u0 H. inversion H; subst. exists (spreadUser u0 updates).
    split; [reflexivity | apply spreadUser_merged].
  - unfold updateUser, setAuthWith, assignAuth. simpl.
    rewrite spreadUser_twice. reflexivity.
  - reflexivity.
  - intros u0 H. discriminate.
  - reflexivity.
Qed.

Definition sampleUser : User.t :=
  User.mk "1" "John Doe" "sales@crm.com" UserRole.salesperson None.

Lemma updateUser_merges_or_skips_witness :
  updateUser (PartialUser.mk None (Some "Grace") None None None)
             (mkAuthState None false, 0%Z)
  = (tt, (mkAuthState None false, 0%Z)) /\
  exists u',
    updateUser (PartialUser.mk None (Some "Grace") None None None)
               (mkAuthState (Some sampleUser) true, 0%Z)
    = (tt, (mkAuthState (Some u') true, 0%Z)) /\
    User.name u' = "Grace" /\ User.role u' = UserRole.salesperson.
Proof.
  split.
  - destruct (updateUser_merges_or_skips
                (PartialUser.mk None (Some "Grace") None None None)
                (mkAuthState None false) 0) as (Hnone & _).
    exact (Hnone eq_refl).
  - destruct (updateUser_merges_or_skips
                (PartialUser.mk None (Some "Grace") None None None)
                (mkAuthState (Some sampleUser) true) 0) as (_ & Hsome & _).
    destruct (Hsome sampleUser eq_refl) as (u' & Hrun & Hm).
    exists u'. split; [exact Hrun|].
    destruct Hm as (_ & Hname & _ & _ & _ & _ & _ & _ & Hrole & _).
    split; [exact (Hname "Grace" eq_refl) | exact (Hrole eq_refl)].
Defined.

(** X2.  Saving the profile changes the name and the email of the
    session user and nothing else: the identifier, the role and the
    avatar stay, so saving the address of the administrator does not
    make an administrator; [isAuthenticated] stays too, and with nobody
    logged in no user is created. *)
Theorem saved_profile_keeps_role
    (data : SettingsPage.profileData) (st : AuthState) (waited : Z) :
  isAuthenticated (fst (snd (SettingsPage.handleSaveProfile data (st, waited))))
    = isAuthenticated st /\
  (user st = None ->
     user (fst (snd (SettingsPage.handleSaveProfile data (st, waited)))) = None) /\
  (forall u, user st = Some u ->
     exists u',
       user (fst (snd (SettingsPage.handleSaveProfile data (st, waited)))) = Some u' /\
       User.name u' = SettingsPage.name data /\
       User.email u' = SettingsPage.email data /\
       User.id u' = User.id u /\ User.role u' = User.role u /\
       User.avatar u' = User.avatar u).
Proof.
  split; [reflexivity|]. split.
  - intros H. simpl. rewrite H. reflexivity.
  - intros u H. simpl. rewrite H. eexists. split; [reflexivity|].
    repeat split; reflexivity.
Qed.

Lemma saved_profile_keeps_role_witness :
  exists u',
    user (fst (snd (SettingsPage.handleSaveProfile
                      (SettingsPage.mkProfileData "Mallory" "admin@crm.com")
                      (snd (login "sales@crm.com" "pw" (mkAuthState None false, 0%Z))))))
      = Some u' /\
    User.email u' = "admin@crm.com" /\ User.role u' = UserRole.salesperson.
Proof.
  destruct (saved_profile_keeps_role
              (SettingsPage.mkProfileData "Mallory" "admin@crm.com")
              (fst (snd (login "sales@crm.com" "pw" (mkAuthState None false, 0%Z))))
              1000) as (_ & _ & Hsome).
  destruct (Hsome sampleUser eq_refl) as (u' & Hu & _ & He & _ & Hr & _).
  exists u'. split; [exact Hu | split; [exact He | exact Hr]].
Defined.

(* ================================================================== *)
(** * How the actions of the entity store compose *)

Section Compositions.
Variable R : Type.
Variable rid : R -> string.

Lemma remove_appended id (l : list R) r :
  rid r = id -> (forall x, In x l -> rid x <> id) ->
  filter (fun x => negb (String.eqb (rid x) id)) (l ++ [r]) = l.
Proof.
  intros Hr Hl. rewrite filter_app, (remove_absent rid l Hl). simpl.
  rewrite Hr, String.eqb_refl. simpl. apply app_nil_r.
Qed.

Lemma remove_twice id (l : list R) :
  filter (fun x => negb (String.eqb (rid x) id))
         (filter (fun x => negb (String.eqb (rid x) id)) l)
  = filter (fun x => negb (String.eqb (rid x) id)) l.
Proof.
  apply remove_absent. intros x Hx Heq. apply filter_In in Hx.
  destruct Hx as [_ Hx]. rewrite Heq, String.eqb_refl in Hx. discriminate.
Qed.

Lemma remove_replaced (upd : R -> Date -> R) id b b' (l l' : list R) :
  (forall r t, rid (upd r t) = rid r) ->
  Forall2 (replaced rid upd id b b') l l' ->
  filter (fun x => negb (String.eqb (rid x) id)) l'
  = filter (fun x => negb (String.eqb (rid x) id)) l.
Proof.
  intros Hid HF. induction HF as [|r r' l l' Hr HF IH]; [reflexivity|].
  simpl. unfold replaced in Hr.
  destruct (String.eqb (rid r) id) eqn:E.
  - destruct Hr as (k & _ & _ & ->). rewrite Hid, E. simpl. exact IH.
  - subst r'. rewrite E. simpl. f_equal. exact IH.
Qed.

Lemma Array_map_ext {S A B} (f g : A -> State S B) (l : list A) :
  (forall x w, f x w = g x w) -> forall w, Array_map f l w = Array_map g l w.
Proof.
  intros Hfg. induction l as [|x l IH]; intros w; [reflexivity|].
  simpl. unfold bind. rewrite Hfg. destruct (g x w) as [y w1].
  rewrite IH. reflexivity.
Qed.
End Compositions.

Lemma not_in_ids {R} (rid : R -> string) id (l : list R) :
  ~ In id (map rid l) -> forall x, In x l -> rid x <> id.
Proof. intros H x Hx Heq. apply H. rewrite <- Heq. apply in_map. exact Hx. Qed.

(** X3.  Adding a record and then deleting the identifier it was given
    gives back the store as it was, when that identifier was not
    already in the collection. *)
Theorem add_then_delete_restores (b : Browser) (s : CRMState) :
  let newId := uuidSource b (uuidsDrawn b) in
  (forall contact, ~ In newId (map Contact.id (contacts s)) ->
     fst (after (deleteContact newId)
            (fst (after (addContact contact) s b))
            (snd (after (addContact contact) s b))) = s) /\
  (forall lead, ~ In newId (map Lead.id (leads s)) ->
     fst (after (deleteLead newId)
            (fst (after (addLead lead) s b))
            (snd (after (addLead lead) s b))) = s) /\
  (forall deal, ~ In newId (map Deal.id (deals s)) ->
     fst (after (deleteDeal newId)
            (fst (after (addDeal deal) s b))
            (snd (after (addDeal deal) s b))) = s) /\
  (forall task, ~ In newId (map Task.id (tasks s)) ->
     fst (after (deleteTask newId)
            (fst (after (addTask task) s b))
            (snd (after (addTask task) s b))) = s).
Proof.
  intros newId. refine (conj _ (conj _ (conj _ _))); intros x Hfresh;
    unfold after, addContact, addLead, addDeal, addTask,
           deleteContact, deleteLead, deleteDeal, deleteTask,
           bind, eff, set, randomUUID, newDate, ret, assign,
           patchContacts, patchLeads, patchDeals, patchTasks; simpl;
    rewrite remove_appended by (try reflexivity; apply not_in_ids; exact Hfresh);
    destruct s; reflexivity.
Qed.

Lemma add_then_delete_restores_witness :
  fst (after (deleteContact "u#")
         (fst (after (addContact sampleContact) oneContactStore oneContactBrowser))
         (snd (after (addContact sampleContact) oneContactStore oneContactBrowser)))
  = oneContactStore.
Proof.
  destruct (add_then_delete_restores oneContactBrowser oneContactStore) as (Hc & _).
  apply (Hc sampleContact). simpl. intros [H|[]]. discriminate.
Defined.

(** X4.  A delete takes out every record that carries the identifier,
    duplicates included, and keeps every other record; it reads neither
    the clock nor the generator, and deleting the same identifier again
    changes nothing. *)
Theorem delete_removes_exactly (b : Browser) (s : CRMState) (id : string) :
  ((forall r, In r (contacts (fst (after (deleteContact id) s b)))
              <-> In r (contacts s) /\ Contact.id r <> id) /\
   snd (after (deleteContact id) s b) = b /\
   after (deleteContact id) (fst (after (deleteContact id) s b)) b
     = after (deleteContact id) s b) /\
  ((forall r, In r (leads (fst (after (deleteLead id) s b)))
              <-> In r (leads s) /\ Lead.id r <> id) /\
   snd (after (deleteLead id) s b) = b /\
   after (deleteLead id) (fst (after (deleteLead id) s b)) b
     = after (deleteLead id) s b) /\
  ((forall r, In r (deals (fst (after (deleteDeal id) s b)))
              <-> In r (deals s) /\ Deal.id r <> id) /\
   snd (after (deleteDeal id) s b) = b /\
   after (deleteDeal id) (fst (after (deleteDeal id) s b)) b
     = after (deleteDeal id) s b) /\
  ((forall r, In r (tasks (fst (after (deleteTask id) s b)))
              <-> In r (tasks s) /\ Task.id r <> id) /\
   snd (after (deleteTask id) s b) = b /\
   after (deleteTask id) (fst (after (deleteTask id) s b)) b
     = after (deleteTask id) s b).
Proof.
  refine (conj _ (conj _ (conj _ _)));
    (split; [|split; [reflexivity|]]);
    unfold after, deleteContact, deleteLead, deleteDeal, deleteTask, set, ret,
           assign, patchContacts, patchLeads, patchDeals, patchTasks; simpl.
  - intros r. rewrite filter_In, negb_true_iff.
    destruct (String.eqb_spec (Contact.id r) id); intuition congruence.
  - rewrite remove_twice. reflexivity.
  - intros r. rewrite filter_In, negb_true_iff.
    destruct (String.eqb_spec (Lead.id r) id); intuition congruence.
  - rewrite remove_twice. reflexivity.
  - intros r. rewrite filter_In, negb_true_iff.
    destruct (String.eqb_spec (Deal.id r) id); intuition congruence.
  - rewrite remove_twice. reflexivity.
  - intros r. rewrite filter_In, negb_true_iff.
    destruct (String.eqb_spec (Task.id r) id); intuition congruence.
  - rewrite remove_twice. reflexivity.
Qed.

Lemma remove_stamped {R} (rid : R -> string) (upd : R -> Date -> R) id (l : list R) b :
  (forall r t, rid (upd r t) = rid r) ->
  filter (fun x => negb (String.eqb (rid x) id))
         (fst (Array_map (stamp rid upd id) l b))
  = filter (fun x => negb (String.eqb (rid x) id)) l.
Proof.
  intros Hid. pose proof (stamp_all rid upd id l b) as HS.
  destruct (Array_map (stamp rid upd id) l b) as [l' b'].
  destruct HS as (HF & _). simpl. exact (remove_replaced Hid HF).
Qed.

(** X5.  Deleting an identifier after an update under that identifier
    leaves the store as the delete alone would, when the update does
    not rename the records. *)
Theorem update_then_delete_is_delete (b : Browser) (s : CRMState) (id : string) :
  (forall u, Contact.p_id u = None ->
     fst (after (deleteContact id)
            (fst (after (updateContact id u) s b))
            (snd (after (updateContact id u) s b)))
     = fst (after (deleteContact id) s b)) /\
  (forall u, Lead.p_id u = None ->
     fst (after (deleteLead id)
            (fst (after (updateLead id u) s b))
            (snd (after (updateLead id u) s b)))
     = fst (after (deleteLead id) s b)) /\
  (forall u, Deal.p_id u = None ->
     fst (after (deleteDeal id)
            (fst (after (updateDeal id u) s b))
            (snd (after (updateDeal id u) s b)))
     = fst (after (deleteDeal id) s b)) /\
  (forall u, Task.p_id u = None ->
     fst (after (deleteTask id)
            (fst (after (updateTask id u) s b))
            (snd (after (updateTask id u) s b)))
     = fst (after (deleteTask id) s b)).
Proof.
  refine (conj _ (conj _ (conj _ _))); intros u Hu.
  - rewrite updateContact_after.
    unfold after, deleteContact, set, ret, assign, patchContacts. simpl.
    rewrite remove_stamped; [reflexivity|].
    intros r t. simpl. rewrite Hu. reflexivity.
  - rewrite updateLead_after.
    unfold after, deleteLead, set, ret, assign, patchLeads. simpl.
    rewrite remove_stamped; [reflexivity|].
    intros r t. simpl. rewrite Hu. reflexivity.
  - rewrite updateDeal_after.
    unfold after, deleteDeal, set, ret, assign, patchDeals. simpl.
    rewrite remove_stamped; [reflexivity|].
    intros r t. simpl. rewrite Hu. reflexivity.
  - rewrite updateTask_after.
    unfold after, deleteTask, set, ret, assign, patchTasks. simpl.
    rewrite remove_stamped; [reflexivity|].
    intros r t. simpl. rewrite Hu. reflexivity.
Qed.

Lemma update_then_delete_is_delete_witness :
  fst (after (deleteContact "#")
         (fst (after (updateContact "#" (renameContact "Grace"))
                     oneContactStore oneContactBrowser))
         (snd (after (updateContact "#" (renameContact "Grace"))
                     oneContactStore oneContactBrowser)))
  = emptyStore.
Proof.
  destruct (update_then_delete_is_delete oneContactBrowser oneContactStore "#")
    as (Hc & _).
  rewrite (Hc (renameContact "Grace") eq_refl). reflexivity.
Defined.

(** The update with its [updatedAt] key set to [stamp]. *)
Definition contactStamped (u : Contact.partial) (stamp : Date) : Contact.partial :=
  Contact.mkPartial (Contact.p_id u) (Contact.p_name u) (Contact.p_email u)
    (Contact.p_phone u) (Contact.p_company u) (Contact.p_position u)
    (Contact.p_tags u) (Contact.p_createdAt u) (Some stamp) (Contact.p_notes u).

Definition leadStamped (u : Lead.partial) (stamp : Date) : Lead.partial :=
  Lead.mkPartial (Lead.p_id u) (Lead.p_name u) (Lead.p_email u) (Lead.p_phone u)
    (Lead.p_company u) (Lead.p_value u) (Lead.p_status u) (Lead.p_assignedTo u)
    (Lead.p_source u) (Lead.p_createdAt u) (Some stamp) (Lead.p_notes u).

Definition dealStamped (u : Deal.partial) (stamp : Date) : Deal.partial :=
  Deal.mkPartial (Deal.p_id u) (Deal.p_title u) (Deal.p_value u) (Deal.p_stage u)
    (Deal.p_contactId u) (Deal.p_assignedTo u) (Deal.p_closeDate u)
    (Deal.p_probability u) (Deal.p_createdAt u) (Some stamp) (Deal.p_notes u).

Definition taskStamped (u : Task.partial) (stamp : Date) : Task.partial :=
  Task.mkPartial (Task.p_id u) (Task.p_title u) (Task.p_description u)
    (Task.p_dueDate u) (Task.p_priority u) (Task.p_status u)
    (Task.p_assignedTo u) (Task.p_relatedTo u) (Task.p_createdAt u) (Some stamp).

(** X6.  An [updatedAt] a caller puts in an update is never stored: the
    update does what it does without that key. *)
Theorem update_ignores_given_updatedAt (b : Browser) (s : CRMState)
    (id : string) (given : Date) :
  (forall u, updateContact id (contactStamped u given) (s, b)
             = updateContact id u (s, b)) /\
  (forall u, updateLead id (leadStamped u given) (s, b)
             = updateLead id u (s, b)) /\
  (forall u, updateDeal id (dealStamped u given) (s, b)
             = updateDeal id u (s, b)) /\
  (forall u, updateTask id (taskStamped u given) (s, b)
             = updateTask id u (s, b)).
Proof.
  refine (conj _ (conj _ (conj _ _))); intros u.
  - rewrite !updateContact_run.
    rewrite (@Array_map_ext _ _ _
               (stamp Contact.id (fun c now => Contact.spread c (contactStamped u given) now) id)
               (stamp Contact.id (fun c now => Contact.spread c u now) id));
      reflexivity.
  - rewrite !updateLead_run.
    rewrite (@Array_map_ext _ _ _
               (stamp Lead.id (fun c now => Lead.spread c (leadStamped u given) now) id)
               (stamp Lead.id (fun c now => Lead.spread c u now) id));
      reflexivity.
  - rewrite !updateDeal_run.
    rewrite (@Array_map_ext _ _ _
               (stamp Deal.id (fun c now => Deal.spread c (dealStamped u given) now) id)
               (stamp Deal.id (fun c now => Deal.spread c u now) id));
      reflexivity.
  - rewrite !updateTask_run.
    rewrite (@Array_map_ext _ _ _
               (stamp Task.id (fun c now => Task.spread c (taskStamped u given) now) id)
               (stamp Task.id (fun c now => Task.spread c u now) id));
      reflexivity.
Qed.

(* ================================================================== *)
(** * Properties of the pipeline board *)

From Stdlib Require Import Permutation.

Lemma perm_pull {A} (d : A) (l X X' : list A) :
  Permutation X (d :: X') -> Permutation (l ++ X) (d :: l ++ X').
Proof.
  intros H. eapply Permutation_trans.
  - apply Permutation_app_head. exact H.
  - apply Permutation_sym. apply Permutation_middle.
Qed.

(** X7.  The six columns of the board split the deals: put end to end
    they hold every deal exactly once, each column in the order of the
    store, and their sizes add up to the number of deals. *)
Theorem columns_partition_deals (deals : list Deal.t) :
  Permutation (List.concat (PipelinePage.columns deals)) deals /\
  list_sum (map (@List.length Deal.t) (PipelinePage.columns deals))
    = List.length deals.
Proof.
  assert (HP : Permutation (List.concat (PipelinePage.columns deals)) deals).
  { unfold PipelinePage.columns, pipelineStages, getDealsByStage.
    cbn [map List.concat StageColumn.id DealStage.to_string].
    induction deals as [|d rest IH]; [reflexivity|].
    cbn [filter]. destruct (Deal.stage d); cbn [DealStage.to_string];
      repeat match goal with
             | |- context [String.eqb ?a ?c] =>
                 let v := eval vm_compute in (String.eqb a c) in
                 change (String.eqb a c) with v
             end; cbv iota;
      (eapply Permutation_trans;
       [ cbn [app]; repeat (apply perm_pull); apply Permutation_refl
       | apply perm_skip; exact IH ]). }
  split; [exact HP|].
  rewrite <- (Permutation_length HP).
  generalize (PipelinePage.columns deals). intros cols.
  induction cols as [|c cols IH]; simpl; [reflexivity|].
  rewrite length_app, IH. reflexivity.
Qed.






Lemma rate_bounds (c n : nat) :
  c <= n -> 0 < n ->
  (0 <= ofNat c / ofNat n * 100 /\ ofNat c / ofNat n * 100 <= 100)%Q.
Proof.
  intros Hcn Hn.
  assert (Hpos : (0 < ofNat n)%Q).
  { unfold ofNat, Qlt, inject_Z. simpl. lia. }
  assert (Hc0 : (0 <= ofNat c)%Q).
  { unfold ofNat, Qle, inject_Z. simpl. lia. }
  assert (Hcn' : (ofNat c <= ofNat n)%Q).
  { unfold ofNat, Qle, inject_Z. simpl. lia. }
  assert (Hq0 : (0 <= ofNat c / ofNat n)%Q).
  { apply Qle_shift_div_l; [exact Hpos|]. rewrite Qmult_0_l. exact Hc0. }
  assert (Hq1 : (ofNat c / ofNat n <= 1)%Q).
  { apply Qle_shift_div_r; [exact Hpos|]. rewrite Qmult_1_l. exact Hcn'. }
  split.
  - apply Qmult_le_0_compat; [exact Hq0 | discriminate].
  - setoid_replace (100%Q) with (1 * 100)%Q at 2 by ring.
    apply Qmult_le_compat_r; [exact Hq1 | discriminate].
Qed.

Lemma filter_length_le {A} (p : A -> bool) (l : list A) :
  List.length (filter p l) <= List.length l.
Proof.
  induction l as [|x l IH]; simpl; [lia|]. destruct (p x); simpl; lia.
Qed.

(** X9.  The conversion rate of the board is a finite number between 0
    and 100 on every list of deals, and 0 on the empty list. *)
Theorem pipeline_rate_is_a_percentage (deals : list Deal.t) :
  exists q, PipelinePage.conversionRate deals = JsNumber.Num q /\
            (0 <= q)%Q /\ (q <= 100)%Q /\
            (deals = [] -> q = 0%Q).
Proof.
  unfold PipelinePage.conversionRate.
  destruct deals as [|d rest].
  - exists 0%Q. repeat split; try reflexivity; discriminate.
  - set (l := d :: rest).
    assert (Hn : 0 < List.length l) by (simpl; lia).
    rewrite (proj2 (Nat.ltb_lt _ _) Hn).
    unfold JsNumber.div, JsNumber.ofCount. fold (ofNat (List.length l)).
    rewrite (ofNat_nonzero Hn).
    eexists. split; [reflexivity|].
    destruct (@rate_bounds (List.length (filter (fun deal =>
                 String.eqb (DealStage.to_string (Deal.stage deal)) "closed-won") l))
                (List.length l) (filter_length_le _ l) Hn) as (H0 & H1).
    split; [exact H0 | split; [exact H1 | discriminate]].
Qed.

Lemma pipeline_rate_is_a_percentage_witness :
  PipelinePage.conversionRate [] = JsNumber.Num 0.
Proof.
  destruct (pipeline_rate_is_a_percentage []) as (q & Hq & _ & _ & Hz).
  rewrite Hq, (Hz eq_refl). reflexivity.
Defined.

(** Everything but the stage and the time of the last update is the same. *)
Definition sameButStage (r r' : Deal.t) : Prop :=
  Deal.id r' = Deal.id r /\ Deal.title r' = Deal.title r /\
  Deal.value r' = Deal.value r /\ Deal.contactId r' = Deal.contactId r /\
  Deal.assignedTo r' = Deal.assignedTo r /\ Deal.closeDate r' = Deal.closeDate r /\
  Deal.probability r' = Deal.probability r /\
  Deal.createdAt r' = Deal.createdAt r /\ Deal.notes r' = Deal.notes r.

Lemma sameButStage_refl r : sameButStage r r.
Proof. unfold sameButStage. repeat split; reflexivity. Qed.

Lemma Forall2_same {A} (Q : A -> A -> Prop) (l : list A) :
  (forall x, Q x x) -> Forall2 Q l l.
Proof. intros H. induction l; constructor; auto. Qed.

(** What the handler does, case by case: nothing, or one update of the
    stage of the deal found under the dragged identifier. *)
Lemma handleDragEnd_cases deals event s b :
  handleDragEnd deals event (s, b) = (tt, (s, b)) \/
  exists overId deal target,
    over event = Some overId /\
    resolveTarget deals overId = Some target /\
    active event <> overId /\
    dealWithId deals (active event) = Some deal /\
    Deal.id deal = active event /\
    Deal.stage deal <> target /\
    handleDragEnd deals event (s, b)
    = updateDeal (Deal.id deal) (Deal.onlyStage target) (s, b).
Proof.
  rewrite handleDragEnd_run.
  destruct (over event) as [overId|] eqn:Hover; [|left; reflexivity].
  destruct (resolveTarget deals overId) as [target|] eqn:Htarget; [|left; reflexivity].
  destruct (String.eqb_spec (active event) overId) as [Heq|Hne]; [left; reflexivity|].
  simpl negb. cbv iota.
  destruct (dealWithId deals (active event)) as [deal|] eqn:Hdeal; [|left; reflexivity].
  destruct (String.eqb (DealStage.to_string (Deal.stage deal))
                       (DealStage.to_string target)) eqn:Hs; [left; reflexivity|].
  right. exists overId, deal, target.
  assert (Hid : Deal.id deal = active event).
  { unfold dealWithId in Hdeal. apply find_some in Hdeal.
    destruct Hdeal as [_ H]. apply String.eqb_eq in H. exact H. }
  repeat split; auto.
  intros Heq. rewrite Heq, String.eqb_refl in Hs. discriminate.
Qed.

(** X10.  Whatever is dragged where, the handler leaves contacts, leads
    and tasks alone, keeps every deal at its position, and changes
    nothing of a deal but its stage and the time of its last update. *)
Theorem drag_end_changes_only_stages
    (shown : list Deal.t) (event : DragEndEvent) (s : CRMState) (b : Browser) :
  contacts (fst (after (handleDragEnd shown event) s b)) = contacts s /\
  leads (fst (after (handleDragEnd shown event) s b)) = leads s /\
  tasks (fst (after (handleDragEnd shown event) s b)) = tasks s /\
  Forall2 sameButStage (deals s) (deals (fst (after (handleDragEnd shown event) s b))).
Proof.
  unfold after.
  destruct (handleDragEnd_cases shown event s b)
    as [Hnone|(overId & deal & target & _ & _ & _ & _ & _ & _ & Hrun)].
  - rewrite Hnone. simpl. repeat split; try reflexivity.
    apply Forall2_same. apply sameButStage_refl.
  - rewrite Hrun. fold (after (updateDeal (Deal.id deal) (Deal.onlyStage target)) s b).
    rewrite updateDeal_after. simpl.
    refine (conj eq_refl (conj eq_refl (conj eq_refl _))).
    pose proof (@stamp_positions _ _ DealEntity (Deal.id deal)
                  (Deal.onlyStage target) b (deals s)) as HF.
    eapply Forall2_impl; [|exact HF]. intros r r' [->|(_ & t & ->)].
    + apply sameButStage_refl.
    + unfold sameButStage. simpl. repeat split; reflexivity.
Qed.

(** The number of deals in the column of a stage. *)
Definition columnSize (deals : list Deal.t) (stage : DealStage.t) : nat :=
  List.length (getDealsByStage deals (DealStage.to_string stage)).

Definition inStage (stage : DealStage.t) (d : Deal.t) : bool :=
  String.eqb (DealStage.to_string (Deal.stage d)) (DealStage.to_string stage).

Lemma inStage_true stage d : inStage stage d = true <-> Deal.stage d = stage.
Proof. apply stage_literal_injective. Qed.

Lemma inStage_false stage d : inStage stage d = false <-> Deal.stage d <> stage.
Proof.
  rewrite <- inStage_true. destruct (inStage stage d); split; congruence.
Qed.

Lemma replaced_none {R} (rid : R -> string) (upd : R -> Date -> R) id b b'
    (l l' : list R) :
  Forall2 (replaced rid upd id b b') l l' ->
  (forall x, In x l -> rid x <> id) -> l' = l.
Proof.
  intros HF. induction HF as [|r r' l l' Hr HF IH]; intros Hnone; [reflexivity|].
  unfold replaced in Hr.
  destruct (String.eqb_spec (rid r) id) as [Heq|Hne].
  - exfalso. apply (Hnone r); simpl; auto.
  - subst r'. f_equal. apply IH. intros x Hx. apply Hnone. simpl; auto.
Qed.

(** With distinct identifiers, restaging the deals of one identifier
    moves one deal from its column to the target column. *)
Lemma restaged_columns id target b b' (l l' : list Deal.t) :
  Forall2 (replaced Deal.id
             (fun d now => Deal.spread d (Deal.onlyStage target) now) id b b') l l' ->
  NoDup (map Deal.id l) ->
  forall deal, In deal l -> Deal.id deal = id -> Deal.stage deal <> target ->
  columnSize l' target = S (columnSize l target) /\
  S (columnSize l' (Deal.stage deal)) = columnSize l (Deal.stage deal) /\
  (forall stage, stage <> target -> stage <> Deal.stage deal ->
     columnSize l' stage = columnSize l stage).
Proof.
  unfold columnSize, getDealsByStage.
  intros HF. induction HF as [|r r' l l' Hr HF IH]; intros Hnd deal Hin Hid Hst;
    [contradiction|].
  inversion Hnd as [|x xs Hnin Hnd']; subst.
  unfold replaced in Hr.
  destruct Hin as [->|Hin].
  - (* the deal is at the head: the tail has no deal under the identifier *)
    rewrite String.eqb_refl in Hr. destruct Hr as (k & _ & _ & ->).
    assert (Htail : l' = l).
    { apply (replaced_none HF). intros x Hx Heq. apply Hnin.
      rewrite <- Heq. apply in_map. exact Hx. }
    subst l'. cbn [filter]. cbn [Deal.spread Deal.stage Deal.onlyStage Deal.p_stage spreadKey].
    split; [|split; [|intros stage Hs1 Hs2]];
      repeat match goal with
             | |- context [String.eqb (DealStage.to_string ?a) (DealStage.to_string ?c)] =>
                 let E := fresh "E" in
                 destruct (String.eqb (DealStage.to_string a) (DealStage.to_string c)) eqn:E
             end;
      repeat match goal with
             | E : String.eqb (DealStage.to_string _) (DealStage.to_string _) = true |- _ =>
                 apply stage_literal_injective in E
             | E : String.eqb ?x ?x = false |- _ =>
                 rewrite String.eqb_refl in E; discriminate
             end;
      try congruence; reflexivity.
  - (* the deal is in the tail: the head carries another identifier *)
    destruct (String.eqb_spec (Deal.id r) (Deal.id deal)) as [Heq|Hne].
    + exfalso. apply Hnin. rewrite Heq. apply in_map. exact Hin.
    + subst r'. destruct (IH Hnd' deal Hin eq_refl Hst) as (H1 & H2 & H3).
      cbn [filter]. split; [|split].
      * destruct (String.eqb _ (DealStage.to_string target)); simpl; congruence.
      * destruct (String.eqb _ (DealStage.to_string (Deal.stage deal))); simpl; congruence.
      * intros stage Hs1 Hs2. specialize (H3 stage Hs1 Hs2).
        destruct (String.eqb _ (DealStage.to_string stage)); simpl; congruence.
Qed.

(** X11.  When the identifiers of the deals are distinct and a drag
    moves a deal, the column of the target stage gains one deal, the
    column the deal was in loses one, and the other columns keep their
    size. *)
Theorem drag_end_moves_one_card (event : DragEndEvent) (s : CRMState) (b : Browser)
    (overId : string) (deal : Deal.t) (target : DealStage.t) :
  NoDup (map Deal.id (deals s)) ->
  over event = Some overId ->
  resolveTarget (deals s) overId = Some target ->
  active event <> overId ->
  dealWithId (deals s) (active event) = Some deal ->
  Deal.stage deal <> target ->
  let moved := deals (fst (after (handleDragEnd (deals s) event) s b)) in
  columnSize moved target = S (columnSize (deals s) target) /\
  S (columnSize moved (Deal.stage deal)) = columnSize (deals s) (Deal.stage deal) /\
  (forall stage, stage <> target -> stage <> Deal.stage deal ->
     columnSize moved stage = columnSize (deals s) stage).
Proof.
  intros Hnd Hover Htarget Hne Hdeal Hstage moved. subst moved.
  assert (Hfound : In deal (deals s) /\ Deal.id deal = active event).
  { unfold dealWithId in Hdeal. apply find_some in Hdeal.
    destruct Hdeal as [Hin H]. apply String.eqb_eq in H. auto. }
  destruct Hfound as [Hin Hid].
  unfold after. rewrite handleDragEnd_run, Hover, Htarget, Hdeal.
  destruct (String.eqb_spec (active event) overId) as [|_]; [contradiction|].
  pose proof (proj2 (inStage_false target deal) Hstage) as Hdiff.
  unfold inStage in Hdiff. rewrite Hdiff. cbn [negb].
  fold (after (updateDeal (Deal.id deal) (Deal.onlyStage target)) s b).
  rewrite updateDeal_after. simpl.
  pose proof (stamp_all Deal.id
                (fun d now => Deal.spread d (Deal.onlyStage target) now)
                (Deal.id deal) (deals s) b) as HS.
  destruct (Array_map _ (deals s) b) as [l' b']. destruct HS as (HF & _). simpl.
  exact (restaged_columns HF Hnd deal Hin eq_refl Hstage).
Qed.

Definition twoDealStore : CRMState :=
  mkCRMState [] []
    [sampleWonDeal "a" 500%Q DealStage.prospecting;
     sampleWonDeal "b" 1500%Q DealStage.prospecting] [].

Lemma drag_end_moves_one_card_witness :
  let moved :=
    deals (fst (after (handleDragEnd (deals twoDealStore)
                         (mkDragEndEvent "b" (Some "closed-won")))
                      twoDealStore tickingBrowser)) in
  columnSize moved DealStage.closed_won = 1 /\
  columnSize moved DealStage.prospecting = 1.
Proof.
  intros moved.
  assert (Hnd : NoDup (map Deal.id (deals twoDealStore))).
  { simpl. repeat constructor; simpl; intuition discriminate. }
  destruct (@drag_end_moves_one_card (mkDragEndEvent "b" (Some "closed-won"))
              twoDealStore tickingBrowser "closed-won"
              (sampleWonDeal "b" 1500%Q DealStage.prospecting) DealStage.closed_won
              Hnd eq_refl eq_refl) as (H1 & H2 & _);
    try reflexivity; try discriminate.
  fold moved in H1, H2. split.
  - rewrite H1. reflexivity.
  - apply eq_add_S.
    change DealStage.prospecting
      with (Deal.stage (sampleWonDeal "b" 1500%Q DealStage.prospecting)) at 1.
    rewrite H2. reflexivity.
Defined.

Section FindAfterUpdate.
Variable R : Type.
Variable rid : R -> string.
Variable upd : R -> Date -> R.
Hypothesis upd_id : forall r t, rid (upd r t) = rid r.

(** Looking up another identifier finds what it found before. *)
Lemma find_other id b b' (l l' : list R) x :
  Forall2 (replaced rid upd id b b') l l' -> x <> id ->
  find (fun r => String.eqb (rid r) x) l' = find (fun r => String.eqb (rid r) x) l.
Proof.
  intros HF Hx. induction HF as [|r r' l l' Hr HF IH]; [reflexivity|].
  simpl. unfold replaced in Hr.
  destruct (String.eqb_spec (rid r) id) as [Heq|Hne].
  - destruct Hr as (k & _ & _ & ->). rewrite upd_id, Heq.
    destruct (String.eqb_spec id x) as [E|_]; [congruence | exact IH].
  - subst r'. rewrite IH. reflexivity.
Qed.

(** Looking up the identifier of the update finds the updated record. *)
Lemma find_updated id b b' (l l' : list R) r :
  Forall2 (replaced rid upd id b b') l l' ->
  find (fun r => String.eqb (rid r) id) l = Some r ->
  exists t, find (fun r => String.eqb (rid r) id) l' = Some (upd r t).
Proof.
  intros HF. induction HF as [|y y' l l' Hy HF IH]; intros Hfind; [discriminate|].
  simpl in *. unfold replaced in Hy.
  destruct (String.eqb (rid y) id) eqn:E.
  - destruct Hy as (k & _ & _ & ->). inversion Hfind; subst.
    rewrite upd_id, E. eauto.
  - subst y'. rewrite E. apply IH. exact Hfind.
Qed.
End FindAfterUpdate.

(** X12.  Handling the same drop a second time, on the deals as the
    first handling left them, changes nothing. *)
Theorem drag_end_twice_is_once (event : DragEndEvent) (s : CRMState) (b : Browser) :
  let s1 := fst (after (handleDragEnd (deals s) event) s b) in
  let b1 := snd (after (handleDragEnd (deals s) event) s b) in
  after (handleDragEnd (deals s1) event) s1 b1 = (s1, b1).
Proof.
  intros s1 b1. subst s1 b1. unfold after.
  destruct (handleDragEnd_cases (deals s) event s b)
    as [Hnone|(overId & deal & target & Hover & Htarget & Hne & Hdeal & Hid & Hstage & Hrun)].
  - rewrite Hnone. cbn [fst snd]. rewrite Hnone. reflexivity.
  - rewrite Hrun, updateDeal_run.
    pose proof (stamp_all Deal.id
                  (fun d now => Deal.spread d (Deal.onlyStage target) now)
                  (Deal.id deal) (deals s) b) as HS.
    destruct (Array_map _ (deals s) b) as [l' b']. destruct HS as (HF & _).
    cbn [fst snd]. cbn [deals assign patchDeals set_deals spreadKey].
    rewrite handleDragEnd_run, Hover.
    assert (Hkeep : forall r t,
              Deal.id (Deal.spread r (Deal.onlyStage target) t) = Deal.id r)
      by reflexivity.
    assert (Htarget' : resolveTarget l' overId = Some target).
    { unfold resolveTarget, dealWithId in *.
      destruct (columnStage overId); [exact Htarget|].
      rewrite (@find_other _ Deal.id _ Hkeep _ _ _ _ _ overId HF); [exact Htarget|].
      rewrite Hid. intros E. apply Hne. symmetry. exact E. }
    rewrite Htarget'.
    destruct (String.eqb_spec (active event) overId) as [|_]; [contradiction|].
    cbn [negb].
    unfold dealWithId in *. rewrite <- Hid in Hdeal |- *.
    destruct (@find_updated _ Deal.id _ Hkeep _ _ _ _ _ _ HF Hdeal) as (t & Hfound).
    rewrite Hfound. cbn [Deal.spread Deal.stage Deal.onlyStage Deal.p_stage spreadKey].
    rewrite String.eqb_refl. reflexivity.
Qed.

(* ================================================================== *)
(** * Properties of the task page *)

(** X13.  Toggling a task of the store completes it unless it is
    completed already, in which case it becomes pending: the task stays
    at its position with every other field but [updatedAt] as it was,
    it is never left in progress, and a second toggle gives back the
    status it had except for a task in progress, which ends pending. *)
Theorem toggle_completes_or_reopens
    (s : CRMState) (b : Browser) (i : nat) (task : Task.t) :
  nth_error (tasks s) i = Some task ->
  exists t1,
    nth_error (tasks (fst (after (TasksPage.handleToggleStatus task) s b))) i = Some t1 /\
    Task.status t1 = match Task.status task with
                     | TaskStatus.completed => TaskStatus.pending
                     | _ => TaskStatus.completed
                     end /\
    Task.id t1 = Task.id task /\ Task.title t1 = Task.title task /\
    Task.description t1 = Task.description task /\
    Task.dueDate t1 = Task.dueDate task /\ Task.priority t1 = Task.priority task /\
    Task.assignedTo t1 = Task.assignedTo task /\
    Task.relatedTo t1 = Task.relatedTo task /\
    Task.createdAt t1 = Task.createdAt task /\
    exists t2,
      nth_error (tasks (fst (after (TasksPage.handleToggleStatus t1)
                               (fst (after (TasksPage.handleToggleStatus task) s b))
                               (snd (after (TasksPage.handleToggleStatus task) s b)))))
                i = Some t2 /\
      Task.status t2 = match Task.status task with
                       | TaskStatus.completed => TaskStatus.completed
                       | _ => TaskStatus.pending
                       end.
Proof.
  intros Hi. unfold TasksPage.handleToggleStatus.
  set (p1 := TasksPage.onlyStatus
               (if String.eqb (TaskStatus.to_string (Task.status task)) "completed"
                then TaskStatus.pending else TaskStatus.completed)).
  rewrite updateTask_after.
  destruct (@stamp_at _ _ TaskEntity (Task.id task) p1 b (tasks s) i task Hi eq_refl)
    as (k & _ & _ & Hnth).
  exists (Task.spread task p1 (clock b k)).
  split; [exact Hnth|].
  split; [subst p1; destruct (Task.status task); reflexivity|].
  do 8 (split; [reflexivity|]).
  cbn [fst snd].
  set (t1 := Task.spread task p1 (clock b k)) in *.
  set (p2 := TasksPage.onlyStatus
               (if String.eqb (TaskStatus.to_string (Task.status t1)) "completed"
                then TaskStatus.pending else TaskStatus.completed)).
  rewrite updateTask_after.
  match goal with
  | |- context [Array_map ?f ?l ?w] =>
      destruct (@stamp_at _ _ TaskEntity (Task.id t1) p2 w l i t1 Hnth eq_refl)
        as (k2 & _ & _ & Hnth2)
  end.
  eexists. split; [exact Hnth2|].
  subst p2 t1 p1. destruct (Task.status task); reflexivity.
Qed.

Definition sampleTask (id : string) (due : Date) (status : TaskStatus.t) : Task.t :=
  Task.mk id "Call back" "" due TaskPriority.medium status "Ada" None 1000%Z 1000%Z.

Lemma toggle_completes_or_reopens_witness :
  exists t1,
    nth_error (tasks (fst (after (TasksPage.handleToggleStatus
                                    (sampleTask "t" 900%Z TaskStatus.in_progress))
                                 (mkCRMState [] [] []
                                    [sampleTask "t" 900%Z TaskStatus.in_progress])
                                 tickingBrowser))) 0 = Some t1 /\
    Task.status t1 = TaskStatus.completed.
Proof.
  destruct (@toggle_completes_or_reopens
              (mkCRMState [] [] [] [sampleTask "t" 900%Z TaskStatus.in_progress])
              tickingBrowser 0 (sampleTask "t" 900%Z TaskStatus.in_progress) eq_refl)
    as (t1 & Hnth & Hstatus & _).
  exists t1. split; [exact Hnth | exact Hstatus].
Defined.

(** One more reading of the clock. *)
Definition tick (b : Browser) : Browser :=
  mkBrowser (uuidSource b) (uuidsDrawn b) (clock b) (S (clockReads b)).

Definition isCompleted (task : Task.t) : bool :=
  String.eqb (TaskStatus.to_string (Task.status task)) "completed".

(** The tasks that are not completed. *)
Definition openTasks (tasks : list Task.t) : nat :=
  List.length (filter (fun t => negb (isCompleted t)) tasks).

Lemma Array_filter_cons {S A} (f : A -> State S bool) x l w :
  Array_filter f (x :: l) w =
  (if fst (f x w)
   then x :: fst (Array_filter f l (snd (f x w)))
   else fst (Array_filter f l (snd (f x w))),
   snd (Array_filter f l (snd (f x w)))).
Proof.
  simpl. unfold bind, ret. destruct (f x w) as [keep w1]. cbn [fst snd].
  destruct (Array_filter f l w1) as [kept w2]. reflexivity.
Qed.

Lemma isOverdue_run task b :
  TasksPage.isOverdue task b =
  if isCompleted task then (false, b)
  else (TasksPage.isAfter (clock b (clockReads b)) (Task.dueDate task), tick b).
Proof.
  unfold TasksPage.isOverdue, isCompleted.
  destruct (String.eqb _ "completed"); reflexivity.
Qed.

Lemma isDueSoon_run addDays task b :
  TasksPage.isDueSoon addDays task b =
  if isCompleted task then (false, tick b)
  else (TasksPage.isAfter (Task.dueDate task) (clock b (S (clockReads b))) &&
        TasksPage.isBefore (Task.dueDate task) (addDays (clock b (clockReads b)) 3%Z),
        tick (tick b)).
Proof.
  unfold TasksPage.isDueSoon, isCompleted, bind, newDate, ret. simpl.
  destruct (String.eqb _ "completed"); reflexivity.
Qed.

(** The overdue pass reads the clock once for every task that is not
    completed. *)
Lemma overdue_pass_reads tasks : forall b,
  clock (snd (Array_filter TasksPage.isOverdue tasks b)) = clock b /\
  clockReads (snd (Array_filter TasksPage.isOverdue tasks b))
    = clockReads b + openTasks tasks.
Proof.
  unfold openTasks.
  induction tasks as [|t rest IH]; intros b; [simpl; auto|].
  rewrite Array_filter_cons, isOverdue_run. cbn [snd filter].
  destruct (isCompleted t); cbn [negb snd fst].
  - apply IH.
  - destruct (IH (tick b)) as (Hc & Hn). simpl in *. split; [exact Hc | lia].
Qed.

(** A task counted overdue in a pass is not counted due soon in a pass
    that reads the clock later. *)
Lemma passes_disjoint addDays tasks : forall b1 b2,
  monotone_clock b1 -> clock b2 = clock b1 ->
  clockReads b1 + openTasks tasks <= clockReads b2 ->
  List.length (filter isCompleted tasks) +
  List.length (fst (Array_filter TasksPage.isOverdue tasks b1)) +
  List.length (fst (Array_filter (TasksPage.isDueSoon addDays) tasks b2))
  <= List.length tasks.
Proof.
  unfold openTasks.
  induction tasks as [|t rest IH]; intros b1 b2 HM Hclk Hreads; [simpl; lia|].
  rewrite !Array_filter_cons, isOverdue_run, isDueSoon_run.
  cbn [filter] in *. destruct (isCompleted t) eqn:Hdone; cbn [negb fst snd] in *.
  - specialize (IH b1 (tick b2) HM Hclk). cbn [List.length].
    simpl clockReads in IH. lia.
  - cbn [List.length] in Hreads.
    specialize (IH (tick b1) (tick (tick b2))).
    assert (HM' : monotone_clock (tick b1)) by exact HM.
    specialize (IH HM' Hclk). simpl clockReads in IH.
    assert (Hle : (clock b1 (clockReads b1) <= clock b2 (S (clockReads b2)))%Z).
    { rewrite Hclk. apply HM. lia. }
    unfold TasksPage.isAfter, TasksPage.isBefore.
    destruct (Task.dueDate t <? clock b1 (clockReads b1))%Z eqn:Hover;
      destruct (clock b2 (S (clockReads b2)) <? Task.dueDate t)%Z eqn:Hsoon;
      cbn [andb List.length];
      try (apply Z.ltb_lt in Hover; apply Z.ltb_lt in Hsoon; lia);
      try destruct (Task.dueDate t <? addDays (clock b2 (clockReads b2)) 3)%Z;
      cbn [List.length]; lia.
Qed.

(** X14.  When the clock does not run backwards, no task is counted
    twice by the statistics of the task page: the numbers of completed,
    overdue and due-soon tasks add up to no more than the number of
    tasks, whatever [addDays] computes. *)
Theorem task_stats_do_not_overlap
    (addDays : Date -> Z -> Date) (tasks : list Task.t) (b : Browser) :
  monotone_clock b ->
  TasksPage.completedTasks (fst (TasksPage.computeStats addDays tasks b)) +
  TasksPage.overdueTasks (fst (TasksPage.computeStats addDays tasks b)) +
  TasksPage.dueSoonTasks (fst (TasksPage.computeStats addDays tasks b))
  <= TasksPage.totalTasks (fst (TasksPage.computeStats addDays tasks b)).
Proof.
  intros HM. unfold TasksPage.computeStats, bind, ret.
  pose proof (overdue_pass_reads tasks b) as (Hc & Hn).
  pose proof (@passes_disjoint addDays tasks b
                (snd (Array_filter TasksPage.isOverdue tasks b)) HM Hc) as HD.
  destruct (Array_filter TasksPage.isOverdue tasks b) as [overdue b1].
  cbn [fst snd] in *.
  destruct (Array_filter (TasksPage.isDueSoon addDays) tasks b1) as [soon b2].
  cbn [fst snd TasksPage.completedTasks TasksPage.overdueTasks
       TasksPage.dueSoonTasks TasksPage.totalTasks] in *.
  apply HD. lia.
Qed.

Definition addDaysUTC (date : Date) (days : Z) : Date :=
  (date + days * 86400000)%Z.

Lemma task_stats_do_not_overlap_witness :
  TasksPage.computeStats addDaysUTC
    [sampleTask "a" 900%Z TaskStatus.pending;
     sampleTask "b" 5000%Z TaskStatus.in_progress;
     sampleTask "c" 900%Z TaskStatus.completed] tickingBrowser
  = (TasksPage.mkStats 3 1 1 1,
     mkBrowser tally 0 (fun n => (1000 + Z.of_nat n)%Z) 7) /\
  1 + 1 + 1 <= 3.
Proof.
  split; [reflexivity|].
  exact (@task_stats_do_not_overlap addDaysUTC
           [sampleTask "a" 900%Z TaskStatus.pending;
            sampleTask "b" 5000%Z TaskStatus.in_progress;
            sampleTask "c" 900%Z TaskStatus.completed]
           tickingBrowser (ticking_monotone 0 0)).
Defined.

(* ================================================================== *)
(** * Counts by status and by stage *)

(** X15.  The status tabs of the lead page count every lead once: the
    four status counts add up to the count of all leads. *)
Theorem lead_status_counts_add_up (leads : list Lead.t) :
  LeadsPage.new (LeadsPage.countByStatus leads) +
  LeadsPage.qualified (LeadsPage.countByStatus leads) +
  LeadsPage.converted (LeadsPage.countByStatus leads) +
  LeadsPage.lost (LeadsPage.countByStatus leads)
  = LeadsPage.all (LeadsPage.countByStatus leads) /\
  LeadsPage.all (LeadsPage.countByStatus leads) = List.length leads /\
  LeadsPage.converted (LeadsPage.countByStatus leads) = Dashboard.convertedLeads leads.
Proof.
  split; [|split; reflexivity].
  unfold LeadsPage.countByStatus. simpl.
  induction leads as [|l rest IH]; [reflexivity|].
  cbn [filter]. destruct (Lead.status l); cbn [LeadStatus.to_string];
    repeat match goal with
           | |- context [String.eqb ?a ?c] =>
               let v := eval vm_compute in (String.eqb a c) in
               change (String.eqb a c) with v
           end; cbv iota; cbn [List.length]; lia.
Qed.

(** X16.  The status tabs of the task page count every task once: the
    three status counts add up to the count of all tasks. *)
Theorem task_status_counts_add_up (tasks : list Task.t) :
  TasksPage.pending (TasksPage.countByStatus tasks) +
  TasksPage.in_progress (TasksPage.countByStatus tasks) +
  TasksPage.completed (TasksPage.countByStatus tasks)
  = TasksPage.all (TasksPage.countByStatus tasks) /\
  TasksPage.all (TasksPage.countByStatus tasks) = List.length tasks /\
  TasksPage.pending (TasksPage.countByStatus tasks) = DashboardPage.pendingTasks tasks.
Proof.
  split; [|split; reflexivity].
  unfold TasksPage.countByStatus. simpl.
  induction tasks as [|t rest IH]; [reflexivity|].
  cbn [filter]. destruct (Task.status t); cbn [TaskStatus.to_string];
    repeat match goal with
           | |- context [String.eqb ?a ?c] =>
               let v := eval vm_compute in (String.eqb a c) in
               change (String.eqb a c) with v
           end; cbv iota; cbn [List.length]; lia.
Qed.

(** X17.  The pipeline chart of the dashboard leaves out the closed-lost
    deals and nothing else: its five slices add up to the number of
    deals less the number of closed-lost deals, and each slice is the
    size of the column of its stage on the board. *)
Theorem pipeline_chart_omits_lost_deals (deals : list Deal.t) :
  list_sum (map snd (DashboardPage.pipelineData deals))
    + columnSize deals DealStage.closed_lost
  = List.length deals /\
  map snd (DashboardPage.pipelineData deals)
  = map (columnSize deals)
        [DealStage.prospecting; DealStage.qualification; DealStage.proposal;
         DealStage.negotiation; DealStage.closed_won].
Proof.
  split; [|reflexivity].
  unfold DashboardPage.pipelineData, columnSize, getDealsByStage.
  cbn [map snd list_sum DealStage.to_string].
  induction deals as [|d rest IH]; [reflexivity|].
  cbn [filter]. destruct (Deal.stage d); cbn [DealStage.to_string];
    repeat match goal with
           | |- context [String.eqb ?a ?c] =>
               let v := eval vm_compute in (String.eqb a c) in
               change (String.eqb a c) with v
           end; cbv iota; cbn [List.length];
    unfold list_sum in *; cbn [fold_right] in *; lia.
Qed.

(* ================================================================== *)
(** * The selection of the contact page *)

Lemma includes_In id (l : list string) : existsb (String.eqb id) l = true <-> In id l.
Proof.
  rewrite existsb_exists. split.
  - intros (x & Hx & E). apply String.eqb_eq in E. subst. exact Hx.
  - intros H. exists id. split; [exact H | apply String.eqb_refl].
Qed.

(** X18.  Clicking the checkbox of a contact flips whether its
    identifier is selected and touches no other identifier; a selection
    without duplicates stays without duplicates; and clicking twice on
    an unselected contact gives back the selection as it was. *)
Theorem select_toggles_one_id (id : string) (prev : list string) :
  (In id (ContactsPage.handleSelectContact id prev) <-> ~ In id prev) /\
  (forall other, other <> id ->
     (In other (ContactsPage.handleSelectContact id prev) <-> In other prev)) /\
  (NoDup prev -> NoDup (ContactsPage.handleSelectContact id prev)) /\
  (~ In id prev ->
   ContactsPage.handleSelectContact id (ContactsPage.handleSelectContact id prev) = prev).
Proof.
  unfold ContactsPage.handleSelectContact.
  destruct (existsb (String.eqb id) prev) eqn:E.
  - assert (Hin : In id prev) by (apply includes_In; exact E).
    split; [|split; [|split]].
    + rewrite filter_In, negb_true_iff, String.eqb_refl. split; [intros [_ H]; discriminate | tauto].
    + intros other Hne. rewrite filter_In, negb_true_iff.
      destruct (String.eqb_spec other id); [contradiction | tauto].
    + apply NoDup_filter.
    + tauto.
  - assert (Hnin : ~ In id prev).
    { intros H. apply includes_In in H. congruence. }
    split; [|split; [|split]].
    + rewrite in_app_iff. simpl. tauto.
    + intros other Hne. rewrite in_app_iff. simpl. split; [|tauto].
      intros [H|[H|[]]]; [exact H | congruence].
    + intros Hnd. apply NoDup_app; [exact Hnd | repeat constructor; simpl; tauto |].
      intros x Hx [<-|[]]. contradiction.
    + intros _.
      assert (E2 : existsb (String.eqb id) (prev ++ [id]) = true).
      { apply includes_In. rewrite in_app_iff. simpl. auto. }
      rewrite E2. apply remove_appended; [reflexivity|].
      intros x Hx Heq. subst x. contradiction.
Qed.

Lemma select_toggles_one_id_witness :
  ContactsPage.handleSelectContact "c" ["a"; "b"] = ["a"; "b"; "c"] /\
  ContactsPage.handleSelectContact "c" (ContactsPage.handleSelectContact "c" ["a"; "b"])
  = ["a"; "b"] /\
  NoDup (ContactsPage.handleSelectContact "a" ["a"; "b"]).
Proof.
  destruct (select_toggles_one_id "c" ["a"; "b"]) as (_ & _ & _ & Htwice).
  destruct (select_toggles_one_id "a" ["a"; "b"]) as (_ & _ & Hnd & _).
  split; [reflexivity|]. split.
  - apply Htwice. simpl. intuition discriminate.
  - apply Hnd. repeat constructor; simpl; intuition discriminate.
Defined.

(* ================================================================== *)
(** * More on the filtered views *)

Lemma includes_empty s : includes s "" = true.
Proof. destruct s; reflexivity. Qed.

Lemma filter_all {A} (p : A -> bool) (l : list A) :
  (forall x, p x = true) -> filter p l = l.
Proof.
  intros H. induction l as [|x l IH]; simpl; [reflexivity|].
  rewrite H, IH. reflexivity.
Qed.

Lemma filter_twice {A} (p q : A -> bool) (l : list A) :
  filter p (filter q l) = filter (fun x => q x && p x) l.
Proof.
  induction l as [|x l IH]; simpl; [reflexivity|].
  destruct (q x); simpl; [destruct (p x)|]; rewrite IH; reflexivity.
Qed.

Lemma filter_same {A} (p q : A -> bool) (l : list A) :
  (forall x, p x = q x) -> filter p l = filter q l.
Proof.
  intros H. induction l as [|x l IH]; simpl; [reflexivity|].
  rewrite H, IH. reflexivity.
Qed.

(** X19.  With an empty search box and every filter on "all", each page
    shows its whole list, in the order of the store. *)
Theorem empty_search_shows_everything :
  (forall contacts, filteredContacts contacts "" = contacts) /\
  (forall leads, filteredLeads leads "" "all" = leads) /\
  (forall tasks, filteredTasks tasks "" "all" "all" = tasks).
Proof.
  refine (conj _ (conj _ _)); intros l;
    unfold filteredContacts, filteredLeads, filteredTasks;
    apply filter_all; intros x; cbv zeta;
    change (toLowerCase "") with ""; rewrite !includes_empty; reflexivity.
Qed.

(** X20.  The search and the exact-match filters can be applied one
    after the other, in either order: searching the leads and then
    filtering the result by status, or filtering first and searching
    after, shows the list that both at once show; likewise for the
    tasks with their status and priority filters. *)
Theorem filters_compose :
  (forall leads searchTerm statusFilter,
     filteredLeads (filteredLeads leads searchTerm "all") "" statusFilter
     = filteredLeads leads searchTerm statusFilter /\
     filteredLeads (filteredLeads leads "" statusFilter) searchTerm "all"
     = filteredLeads leads searchTerm statusFilter) /\
  (forall tasks searchTerm statusFilter priorityFilter,
     filteredTasks (filteredTasks tasks searchTerm "all" "all")
                   "" statusFilter priorityFilter
     = filteredTasks tasks searchTerm statusFilter priorityFilter /\
     filteredTasks (filteredTasks tasks "" statusFilter "all")
                   searchTerm "all" priorityFilter
     = filteredTasks tasks searchTerm statusFilter priorityFilter /\
     filteredTasks (filteredTasks tasks "" "all" priorityFilter)
                   searchTerm statusFilter "all"
     = filteredTasks tasks searchTerm statusFilter priorityFilter).
Proof.
  split.
  - intros leads searchTerm statusFilter.
    unfold filteredLeads. rewrite !filter_twice. cbv zeta.
    change (toLowerCase "") with "".
    split; apply filter_same; intros x; rewrite !includes_empty;
      change (String.eqb "all" "all") with true; cbn [orb andb];
      rewrite ?andb_true_r, ?orb_true_r, ?andb_true_l; try reflexivity;
      apply andb_comm.
  - intros tasks searchTerm statusFilter priorityFilter.
    unfold filteredTasks. rewrite !filter_twice. cbv zeta.
    change (toLowerCase "") with "".
    repeat split; apply filter_same; intros x; rewrite !includes_empty;
      change (String.eqb "all" "all") with true; cbn [orb andb];
      rewrite ?andb_true_r, ?orb_true_r, ?andb_true_l;
      repeat match goal with
             | |- context [includes ?a ?c] => destruct (includes a c)
             | |- context [String.eqb ?a ?c] => destruct (String.eqb a c)
             end; reflexivity.
Qed.

(* ================================================================== *)
(** * The overdue count of the dashboard *)

Lemma Array_filter_ext {S A} (f g : A -> State S bool) (l : list A) :
  (forall x w, f x w = g x w) -> forall w, Array_filter f l w = Array_filter g l w.
Proof.
  intros Hfg. induction l as [|x l IH]; intros w; [reflexivity|].
  rewrite !Array_filter_cons, Hfg, !IH. reflexivity.
Qed.

Lemma dashboard_overdue_run tasks b :
  DashboardPage.overdueTasks tasks b =
  (List.length (fst (Array_filter TasksPage.isOverdue tasks b)),
   snd (Array_filter TasksPage.isOverdue tasks b)).
Proof.
  unfold DashboardPage.overdueTasks. unfold bind at 1. unfold ret at 1.
  match goal with
  | |- context [Array_filter ?f tasks b] =>
      rewrite (Array_filter_ext f TasksPage.isOverdue tasks (fun x w => eq_refl) b)
  end.
  destruct (Array_filter TasksPage.isOverdue tasks b). reflexivity.
Qed.

Lemma overdue_skips_completed tasks : forall b,
  List.length (fst (Array_filter TasksPage.isOverdue tasks b))
  + List.length (filter isCompleted tasks) <= List.length tasks.
Proof.
  induction tasks as [|t rest IH]; intros b; [simpl; lia|].
  rewrite Array_filter_cons, isOverdue_run. cbn [filter].
  destruct (isCompleted t); cbn [fst snd List.length].
  - specialize (IH b). lia.
  - specialize (IH (tick b)).
    destruct (TasksPage.isAfter _ _); cbn [List.length]; lia.
Qed.

Lemma overdue_at_instant now tasks : forall b,
  (forall k, clockReads b <= k -> clock b k = now) ->
  fst (Array_filter TasksPage.isOverdue tasks b)
  = filter (fun t => negb (isCompleted t) && (Task.dueDate t <? now)%Z) tasks.
Proof.
  induction tasks as [|t rest IH]; intros b Hnow; [reflexivity|].
  rewrite Array_filter_cons, isOverdue_run. cbn [filter].
  destruct (isCompleted t); cbn [fst snd negb andb].
  - apply IH. exact Hnow.
  - unfold TasksPage.isAfter. rewrite (Hnow (clockReads b)) by lia.
    rewrite (IH (tick b)); [reflexivity|].
    intros k Hk. apply (Hnow k). simpl in Hk. lia.
Qed.

(** X21.  The dashboard counts as overdue what the task page counts
    from the same readings of the clock; a completed task is never
    counted; and when the clock stands still during the count, the
    count is the number of tasks that are not completed and were due
    before that instant. *)
Theorem dashboard_overdue_count (tasks : list Task.t) (b : Browser) :
  fst (DashboardPage.overdueTasks tasks b)
    = List.length (fst (Array_filter TasksPage.isOverdue tasks b)) /\
  fst (DashboardPage.overdueTasks tasks b)
    + List.length (filter isCompleted tasks) <= List.length tasks /\
  (forall now, (forall k, clockReads b <= k -> clock b k = now) ->
     fst (DashboardPage.overdueTasks tasks b)
     = List.length (filter (fun t => negb (isCompleted t) &&
                                     (Task.dueDate t <? now)%Z) tasks)).
Proof.
  rewrite dashboard_overdue_run. cbn [fst].
  split; [reflexivity|]. split.
  - apply overdue_skips_completed.
  - intros now Hnow. rewrite (overdue_at_instant tasks b Hnow). reflexivity.
Qed.

Lemma dashboard_overdue_count_witness :
  fst (DashboardPage.overdueTasks
         [sampleTask "a" 900%Z TaskStatus.pending;
          sampleTask "b" 5000%Z TaskStatus.in_progress;
          sampleTask "c" 900%Z TaskStatus.completed] frozenBrowser) = 1.
Proof.
  destruct (dashboard_overdue_count
              [sampleTask "a" 900%Z TaskStatus.pending;
               sampleTask "b" 5000%Z TaskStatus.in_progress;
               sampleTask "c" 900%Z TaskStatus.completed] frozenBrowser)
    as (_ & _ & Hstill).
  rewrite (Hstill 1000%Z); [reflexivity|]. intros k _. reflexivity.
Defined.

(* ================================================================== *)
(** * The lead sources of the analytics page (Analytics.tsx) *)

Module AnalyticsPage.

(** The property names a plain object inherits from [Object.prototype]. *)
Definition inheritedNames : list string :=
  ["constructor"; "__proto__"; "hasOwnProperty"; "isPrototypeOf";
   "propertyIsEnumerable"; "toLocaleString"; "toString"; "valueOf";
   "__defineGetter__"; "__defineSetter__"; "__lookupGetter__";
   "__lookupSetter__"].

Definition isDigit (c : ascii) : bool :=
  (48 <=? nat_of_ascii c) && (nat_of_ascii c <=? 57).

(** A key under which a plain object behaves as a map that lists its
    keys in the order they were added: not an inherited name, and not
    a number (array indices are listed first). *)
Definition plainKey (k : string) : bool :=
  negb (existsb (String.eqb k) inheritedNames) &&
  match k with
  | String c _ => negb (isDigit c)
  | EmptyString => true
  end.

(** [acc[k] = (acc[k] || 0) + 1] on the own keys of [acc], in the order
    they were added. *)
Fixpoint bump (k : string) (acc : list (string * nat)) : list (string * nat) :=
  match acc with
  | [] => [(k, 0 + 1)]
  | (k', n) :: rest =>
      if String.eqb k' k then (k', n + 1) :: rest else (k', n) :: bump k rest
  end.

(** The reduction of the leads into counts by source; [None] when a
    source is not a plain key. *)
Definition leadSources (leads : list Lead.t) : option (list (string * nat)) :=
  fold_left (fun acc lead =>
    match acc with
    | Some entries =>
        if plainKey (Lead.source lead)
        then Some (bump (Lead.source lead) entries)
        else None
    | None => None
    end) leads (Some []).

Record slice := mkSlice { name : string; value : nat }.

(** [Object.entries(leadSources).map(([source, count]) => ...)] *)
Definition leadSourceData (leads : list Lead.t) : option (list slice) :=
  match leadSources leads with
  | Some entries => Some (map (fun e => mkSlice (fst e) (snd e)) entries)
  | None => None
  end.
End AnalyticsPage.

Section LeadSources.
Import AnalyticsPage.

Definition countOf (k : string) (entries : list (string * nat)) : nat :=
  match find (fun e => String.eqb (fst e) k) entries with
  | Some e => snd e
  | None => 0
  end.

Definition fromSource (k : string) (leads : list Lead.t) : nat :=
  List.length (filter (fun l => String.eqb (Lead.source l) k) leads).

Lemma bump_count k k' acc :
  countOf k' (bump k acc) = countOf k' acc + (if String.eqb k k' then 1 else 0).
Proof.
  unfold countOf. induction acc as [|[k0 n] rest IH]; simpl.
  - destruct (String.eqb k k'); reflexivity.
  - destruct (String.eqb_spec k0 k) as [->|Hne]; simpl.
    + destruct (String.eqb k k'); simpl; lia.
    + destruct (String.eqb_spec k0 k') as [->|Hne'].
      * destruct (String.eqb_spec k k'); [congruence | simpl; lia].
      * exact IH.
Qed.

Lemma bump_keys k acc :
  map fst (bump k acc) =
  if existsb (String.eqb k) (map fst acc) then map fst acc else map fst acc ++ [k].
Proof.
  induction acc as [|[k0 n] rest IH]; [reflexivity|].
  simpl. rewrite (String.eqb_sym k k0).
  destruct (String.eqb k0 k); simpl; [reflexivity|].
  rewrite IH. destruct (existsb _ _); reflexivity.
Qed.

Lemma bump_sum k acc :
  list_sum (map snd (bump k acc)) = S (list_sum (map snd acc)).
Proof.
  induction acc as [|[k0 n] rest IH]; [reflexivity|].
  simpl. destruct (String.eqb k0 k); simpl; [lia|]. rewrite IH. lia.
Qed.

Lemma bump_positive k acc :
  Forall (fun e => 1 <= snd e) acc -> Forall (fun e => 1 <= snd e) (bump k acc).
Proof.
  induction acc as [|[k0 n] rest IH]; intros H; simpl.
  - repeat constructor.
  - inversion H; subst. destruct (String.eqb k0 k); constructor; simpl in *; auto; lia.
Qed.

Lemma bump_nodup k acc : NoDup (map fst acc) -> NoDup (map fst (bump k acc)).
Proof.
  intros H. rewrite bump_keys. destruct (existsb _ _) eqn:E; [exact H|].
  apply NoDup_app; [exact H | repeat constructor; simpl; tauto|].
  intros x Hx [<-|[]]. apply includes_In in Hx. congruence.
Qed.

(** The counts after the whole reduction, from any accumulator. *)
Definition counted (leads : list Lead.t) (acc : list (string * nat)) :=
  fold_left (fun entries lead => bump (Lead.source lead) entries) leads acc.

Lemma leadSources_counted leads : forall acc,
  (forall l, In l leads -> plainKey (Lead.source l) = true) ->
  fold_left (fun acc lead =>
    match acc with
    | Some entries =>
        if plainKey (Lead.source lead)
        then Some (bump (Lead.source lead) entries)
        else None
    | None => None
    end) leads (Some acc) = Some (counted leads acc).
Proof.
  induction leads as [|l rest IH]; intros acc H; [reflexivity|].
  simpl. rewrite (H l) by (simpl; auto). apply IH.
  intros x Hx. apply H. simpl; auto.
Qed.

Lemma counted_spec leads : forall acc,
  NoDup (map fst acc) -> Forall (fun e => 1 <= snd e) acc ->
  NoDup (map fst (counted leads acc)) /\
  Forall (fun e => 1 <= snd e) (counted leads acc) /\
  list_sum (map snd (counted leads acc))
    = list_sum (map snd acc) + List.length leads /\
  (forall k, countOf k (counted leads acc) = countOf k acc + fromSource k leads).
Proof.
  unfold fromSource.
  induction leads as [|l rest IH]; intros acc Hnd Hpos.
  - simpl. repeat split; auto.
  - destruct (IH (bump (Lead.source l) acc)
                (@bump_nodup (Lead.source l) acc Hnd)
                (@bump_positive (Lead.source l) acc Hpos))
      as (H1 & H2 & H3 & H4).
    simpl counted. split; [exact H1|]. split; [exact H2|]. split.
    + rewrite H3, bump_sum. simpl. lia.
    + intros k. rewrite H4, bump_count. cbn [filter].
      destruct (String.eqb (Lead.source l) k); simpl; lia.
Qed.

Lemma countOf_entry entries k n :
  NoDup (map fst entries) -> In (k, n) entries -> countOf k entries = n.
Proof.
  unfold countOf. induction entries as [|[k0 n0] rest IH]; intros Hnd Hin; [contradiction|].
  simpl in *. inversion Hnd as [|x xs Hnin Hnd']; subst.
  destruct Hin as [H|H].
  - inversion H; subst. rewrite String.eqb_refl. reflexivity.
  - destruct (String.eqb_spec k0 k) as [->|_].
    + exfalso. apply Hnin. change k with (fst (k, n)). apply in_map. exact H.
    + apply IH; assumption.
Qed.

Lemma countOf_key entries k : 1 <= countOf k entries -> In k (map fst entries).
Proof.
  unfold countOf. destruct (find _ entries) as [e|] eqn:E; [|simpl; lia].
  intros _. apply find_some in E. destruct E as [Hin Heq].
  apply String.eqb_eq in Heq. rewrite <- Heq. apply in_map. exact Hin.
Qed.
End LeadSources.

(** X22.  When no lead source is a number or a name that objects
    inherit, the lead source chart has one slice for each source in
    use, each with the number of leads from that source, and the
    slices add up to the number of leads. *)
Theorem lead_sources_count_every_lead (leads : list Lead.t) :
  (forall l, In l leads -> AnalyticsPage.plainKey (Lead.source l) = true) ->
  exists data,
    AnalyticsPage.leadSourceData leads = Some data /\
    NoDup (map AnalyticsPage.name data) /\
    list_sum (map AnalyticsPage.value data) = List.length leads /\
    (forall s, In s data ->
       AnalyticsPage.value s = fromSource (AnalyticsPage.name s) leads /\
       1 <= AnalyticsPage.value s) /\
    (forall l, In l leads -> In (Lead.source l) (map AnalyticsPage.name data)).
Proof.
  intros Hplain. unfold AnalyticsPage.leadSourceData, AnalyticsPage.leadSources.
  rewrite (leadSources_counted leads [] Hplain).
  destruct (@counted_spec leads [] (NoDup_nil _) (Forall_nil _))
    as (Hnd & Hpos & Hsum & Hcount).
  set (entries := counted leads []) in *.
  eexists. split; [reflexivity|].
  rewrite !map_map. cbn [AnalyticsPage.name AnalyticsPage.value].
  split; [exact Hnd|]. split; [exact Hsum|]. split.
  - intros s Hs. apply in_map_iff in Hs. destruct Hs as ([k n] & <- & Hin).
    cbn [AnalyticsPage.name AnalyticsPage.value fst snd].
    split.
    + rewrite <- (@countOf_entry entries k n Hnd Hin), Hcount. reflexivity.
    + rewrite Forall_forall in Hpos. exact (Hpos _ Hin).
  - intros l Hl. apply countOf_key. rewrite Hcount. unfold countOf, fromSource. simpl.
    assert (Hin : In l (filter (fun x => String.eqb (Lead.source x) (Lead.source l)) leads)).
    { apply filter_In. split; [exact Hl | apply String.eqb_refl]. }
    destruct (filter _ leads); [contradiction | simpl; lia].
Qed.

Definition leadFrom (source : string) : Lead.t :=
  Lead.mk "l" "Ada" "ada@example.com" "555-0100" "Analytical" 1000%Q
          LeadStatus.new "Grace" source 1000%Z 1000%Z "".

Lemma lead_sources_count_every_lead_witness :
  AnalyticsPage.leadSourceData
    [leadFrom "Website"; leadFrom "Referral"; leadFrom "Website"]
  = Some [AnalyticsPage.mkSlice "Website" 2; AnalyticsPage.mkSlice "Referral" 1] /\
  exists data,
    AnalyticsPage.leadSourceData
      [leadFrom "Website"; leadFrom "Referral"; leadFrom "Website"] = Some data /\
    list_sum (map AnalyticsPage.value data) = 3.
Proof.
  split; [reflexivity|].
  destruct (@lead_sources_count_every_lead
              [leadFrom "Website"; leadFrom "Referral"; leadFrom "Website"])
    as (data & Hdata & _ & Hsum & _).
  - intros l [<-|[<-|[<-|[]]]]; reflexivity.
  - exists data. split; [exact Hdata | exact Hsum].
Defined.
